(** * mxGraphHierarchyEdge: the edge wrapper of the hierarchical layout

    A shallow embedding of
    [src/mxgraph/layout/hierarchical/model/mxGraphHierarchyEdge.js].

    The class is imperative JavaScript: its methods mutate [this], they
    allocate arrays, and they hand out references to arrays that stay
    stored inside the object.  The embedding therefore keeps an explicit
    store of objects, addressed by locations, and every method is a
    computation in a small state monad over that store. *)

From Stdlib Require Import Ascii String.
From stdpp Require Import base option numbers list strings gmap fin_maps.

Local Open Scope Z_scope.

(** ** JavaScript values and arrays *)

(** Addresses of objects in the store. *)
Definition loc := positive.

(** The values a field, an array slot or a method result can hold.
    Ranks and the numbers stashed in scratch slots are integers. *)
Inductive value :=
| VUndefined
| VNull
| VBool (b : bool)
| VNum (n : Z)
| VStr (s : string)
| VRef (l : loc).

Global Instance value_eq_dec : EqDecision value.
Proof. solve_decision. Defined.

(** A JavaScript array is an object with a [length] and with properties
    keyed by integers.  A key that is no array index (a negative one) is
    an ordinary property: assigning to it stores the value and leaves
    [length] alone.  Reading a key that holds nothing yields
    [undefined].  The engine's upper limit on [length] is far outside
    what the modelled code reaches and is not represented. *)
Record jsarray := JsArray {
  props : gmap Z value;
  len : nat
}.

(** [[]] *)
Definition empty_array : jsarray := {| props := ∅; len := 0 |}.

(** [a[k]] *)
Definition array_get (a : jsarray) (k : Z) : value :=
  default VUndefined (props a !! k).

(** [a[k] = v] *)
Definition array_set (a : jsarray) (k : Z) (v : value) : jsarray :=
  {| props := <[k := v]> (props a);
     len := if decide (0 ≤ k) then Nat.max (len a) (S (Z.to_nat k)) else len a |}.

(** [a.push(v)] *)
Definition array_push (a : jsarray) (v : value) : jsarray :=
  {| props := <[Z.of_nat (len a) := v]> (props a); len := S (len a) |}.

(** The array literal [[v1, ..., vn]]. *)
Definition array_of_list (vs : list value) : jsarray :=
  foldl array_push empty_array vs.

(** The slots [a[0], ..., a[a.length - 1]] in order. *)
Definition array_elems (a : jsarray) : list value :=
  map (λ i : nat, array_get a (Z.of_nat i)) (seq 0 (len a)).

(** An array that holds values at its indices [0 .. length - 1] only. *)
Definition in_bounds (a : jsarray) : Prop :=
  ∀ k, is_Some (props a !! k) → 0 ≤ k < Z.of_nat (len a).

(** ** Objects *)

(** Modelled from the spec: the part of a hierarchy edge that it
    inherits.  The base class [mxGraphAbstractHierarchyCell] is imported
    by the source file but is not part of the sources at hand.  The
    record has the fields the data model of the specification lists for
    a HierarchyCell: [id], [minRank], [maxRank], the scratch array [temp]
    and the two lazily computed caches, each of which is [null] (here
    [None]) until it is built. *)
Record AbstractHierarchyCell := AbstractCell {
  id : value;
  maxRank : Z;
  minRank : Z;
  nextLayerConnectedCells : option loc;
  previousLayerConnectedCells : option loc;
  temp : loc
}.

(** The fields of [mxGraphHierarchyEdge].  [edges] and [ids] are [null]
    (here [None]) or hold an array; [source] and [target] are only ever
    moved around, so they are arbitrary values. *)
Record HierarchyEdge := Edge {
  cell : AbstractHierarchyCell;
  edges : option loc;
  ids : option loc;
  source : value;
  target : value;
  isReversed : bool
}.

(** What the store holds at a location.  [OOpaque] stands for an object
    of a class whose fields the methods below never read: a hierarchy
    node or a cell of the external graph. *)
Inductive object :=
| OArray (a : jsarray)
| OEdge (e : HierarchyEdge)
| OOpaque.

Abbreviation heap := (gmap loc object).

(** Field assignments. *)
Definition set_nextLayerConnectedCells (v : option loc) (e : HierarchyEdge) : HierarchyEdge :=
  {| cell := {| id := id (cell e); maxRank := maxRank (cell e); minRank := minRank (cell e);
                nextLayerConnectedCells := v;
                previousLayerConnectedCells := previousLayerConnectedCells (cell e);
                temp := temp (cell e) |};
     edges := edges e; ids := ids e; source := source e; target := target e;
     isReversed := isReversed e |}.

Definition set_previousLayerConnectedCells (v : option loc) (e : HierarchyEdge) : HierarchyEdge :=
  {| cell := {| id := id (cell e); maxRank := maxRank (cell e); minRank := minRank (cell e);
                nextLayerConnectedCells := nextLayerConnectedCells (cell e);
                previousLayerConnectedCells := v;
                temp := temp (cell e) |};
     edges := edges e; ids := ids e; source := source e; target := target e;
     isReversed := isReversed e |}.

Definition set_edges (v : option loc) (e : HierarchyEdge) : HierarchyEdge :=
  {| cell := cell e; edges := v; ids := ids e; source := source e; target := target e;
     isReversed := isReversed e |}.

Definition set_ids (v : option loc) (e : HierarchyEdge) : HierarchyEdge :=
  {| cell := cell e; edges := edges e; ids := v; source := source e; target := target e;
     isReversed := isReversed e |}.

Definition set_source (v : value) (e : HierarchyEdge) : HierarchyEdge :=
  {| cell := cell e; edges := edges e; ids := ids e; source := v; target := target e;
     isReversed := isReversed e |}.

Definition set_target (v : value) (e : HierarchyEdge) : HierarchyEdge :=
  {| cell := cell e; edges := edges e; ids := ids e; source := source e; target := v;
     isReversed := isReversed e |}.

Definition set_isReversed (v : bool) (e : HierarchyEdge) : HierarchyEdge :=
  {| cell := cell e; edges := edges e; ids := ids e; source := source e; target := target e;
     isReversed := v |}.

(** ** The store monad *)

(** A computation reads and updates a state and returns a result.
    [None] means that the store is not shaped as the code expects (a
    location that should hold an edge or an array holds something
    else); a run of the JavaScript program never gets there. *)
Definition ST (St A : Type) : Type := St → option (A * St).

(** The methods only touch the object store. *)
Abbreviation M := (ST heap).

Definition ret {St A} (a : A) : ST St A := λ s, Some (a, s).

Definition bind {St A B} (m : ST St A) (k : A → ST St B) : ST St B :=
  λ s, match m s with
       | Some (a, s') => k a s'
       | None => None
       end.

Definition stuck {St A} : ST St A := λ _, None.

Notation "x <- m ;; k" := (bind m (λ x, k))
  (at level 100, m at next level, right associativity).
Notation "m ;;; k" := (bind m (λ _, k))
  (at level 100, right associativity).

(** Reading and writing the fields of the edge at [this]. *)
Definition load_edge (this : loc) : M HierarchyEdge :=
  λ h, match h !! this with
       | Some (OEdge e) => Some (e, h)
       | _ => None
       end.

Definition update_edge (this : loc) (f : HierarchyEdge → HierarchyEdge) : M unit :=
  e <- load_edge this ;;
  λ h, Some (tt, <[this := OEdge (f e)]> h).

(** Reading and writing the array at [l]. *)
Definition load_array (l : loc) : M jsarray :=
  λ h, match h !! l with
       | Some (OArray a) => Some (a, h)
       | _ => None
       end.

Definition update_array (l : loc) (f : jsarray → jsarray) : M unit :=
  a <- load_array l ;;
  λ h, Some (tt, <[l := OArray (f a)]> h).

(** Creating an object: it gets a location that is not in use. *)
Definition new_object (o : object) : M loc :=
  λ h, let l := fresh (dom h) in Some (l, <[l := o]> h).

(** The array literal [[]]. *)
Definition new_array : M loc := new_object (OArray empty_array).

(** A field that must hold an array. *)
Definition array_of_field (f : option loc) : M loc :=
  match f with
  | Some l => ret l
  | None => stuck
  end.

(** [v.push(w)] where [v] was read out of an array slot. *)
Definition push_onto (v : value) (w : value) : M unit :=
  match v with
  | VRef l => update_array l (λ a, array_push a w)
  | _ => stuck
  end.

(** [for (let i = start; cond(i); i += 1) body(i)].  The condition is
    evaluated again before every round; [fuel] bounds the number of
    rounds. *)
Fixpoint for_loop {St} (fuel : nat) (cond : nat → ST St bool) (body : nat → ST St unit)
    (i : nat) : ST St unit :=
  match fuel with
  | O => stuck
  | S fuel' =>
      b <- cond i ;;
      if b : bool then body i ;;; for_loop fuel' cond body (S i) else ret tt
  end.

(** ** The methods of mxGraphHierarchyEdge *)

(** [invert(layer)]: the argument is not used. *)
Definition invert (this : loc) : M unit :=
  e <- load_edge this ;;
  let temp_ := source e in
  update_edge this (λ e, set_source (target e) e) ;;;
  update_edge this (set_target temp_) ;;;
  update_edge this (λ e, set_isReversed (negb (isReversed e)) e).

(** [i < this.temp.length] *)
Definition below_temp_length (this : loc) (i : nat) : M bool :=
  e <- load_edge this ;;
  t <- load_array (temp (cell e)) ;;
  ret (bool_decide (i < len t)%nat).

(** The body of the loop of [getNextLayerConnectedCells]:
    [this.nextLayerConnectedCells[i] = []], then the [push] of
    [this.source] or of [this] onto that slot. *)
Definition next_round (this : loc) (i : nat) : M unit :=
  e <- load_edge this ;;
  o <- array_of_field (nextLayerConnectedCells (cell e)) ;;
  inner <- new_array ;;
  update_array o (λ a, array_set a (Z.of_nat i) (VRef inner)) ;;;
  e <- load_edge this ;;
  t <- load_array (temp (cell e)) ;;
  o <- array_of_field (nextLayerConnectedCells (cell e)) ;;
  a <- load_array o ;;
  if Z.of_nat i =? Z.of_nat (len t) - 1
  then push_onto (array_get a (Z.of_nat i)) (source e)
  else push_onto (array_get a (Z.of_nat i)) (VRef this).

(** [getNextLayerConnectedCells(layer)].  The loop gets as fuel one more
    than the length that [temp] has when the loop is entered. *)
Definition getNextLayerConnectedCells (this : loc) (layer : Z) : M value :=
  e <- load_edge this ;;
  match nextLayerConnectedCells (cell e) with
  | None =>
      fresh_ <- new_array ;;
      update_edge this (set_nextLayerConnectedCells (Some fresh_)) ;;;
      t0 <- load_array (temp (cell e)) ;;
      for_loop (S (len t0)) (below_temp_length this) (next_round this) 0%nat
  | Some _ => ret tt
  end ;;;
  e <- load_edge this ;;
  o <- array_of_field (nextLayerConnectedCells (cell e)) ;;
  a <- load_array o ;;
  ret (array_get a (layer - minRank (cell e) - 1)).

(** The body of the loop of [getPreviousLayerConnectedCells]:
    [this.previousLayerConnectedCells[i] = []], then the [push] of
    [this.target] or of [this] onto that slot. *)
Definition previous_round (this : loc) (i : nat) : M unit :=
  e <- load_edge this ;;
  o <- array_of_field (previousLayerConnectedCells (cell e)) ;;
  inner <- new_array ;;
  update_array o (λ a, array_set a (Z.of_nat i) (VRef inner)) ;;;
  e <- load_edge this ;;
  o <- array_of_field (previousLayerConnectedCells (cell e)) ;;
  a <- load_array o ;;
  if Z.of_nat i =? 0
  then push_onto (array_get a (Z.of_nat i)) (target e)
  else push_onto (array_get a (Z.of_nat i)) (VRef this).

(** [getPreviousLayerConnectedCells(layer)], with the same fuel. *)
Definition getPreviousLayerConnectedCells (this : loc) (layer : Z) : M value :=
  e <- load_edge this ;;
  match previousLayerConnectedCells (cell e) with
  | None =>
      fresh_ <- new_array ;;
      update_edge this (set_previousLayerConnectedCells (Some fresh_)) ;;;
      t0 <- load_array (temp (cell e)) ;;
      for_loop (S (len t0)) (below_temp_length this) (previous_round this) 0%nat
  | Some _ => ret tt
  end ;;;
  e <- load_edge this ;;
  o <- array_of_field (previousLayerConnectedCells (cell e)) ;;
  a <- load_array o ;;
  ret (array_get a (layer - minRank (cell e) - 1)).

(** [isEdge()] *)
Definition isEdge (this : loc) : M bool := ret true.

(** [getGeneralPurposeVariable(layer)] *)
Definition getGeneralPurposeVariable (this : loc) (layer : Z) : M value :=
  e <- load_edge this ;;
  t <- load_array (temp (cell e)) ;;
  ret (array_get t (layer - minRank (cell e) - 1)).

(** [setGeneralPurposeVariable(layer, value)] *)
Definition setGeneralPurposeVariable (this : loc) (layer : Z) (v : value) : M unit :=
  e <- load_edge this ;;
  update_array (temp (cell e)) (λ t, array_set t (layer - minRank (cell e) - 1) v).

(** [getCoreCell()] *)
Definition getCoreCell (this : loc) : M value :=
  e <- load_edge this ;;
  match edges e with
  | Some l =>
      a <- load_array l ;;
      if decide (0 < len a)%nat then ret (array_get a 0) else ret VNull
  | None => ret VNull
  end.

(** ** The constructor *)

Section Constructor.

(** [mxObjectIdentity] is imported by the source file but is not part
    of the sources at hand.  Its [get] hands out an identity token for
    an object and keeps book of the tokens in a state of its own, which
    here is a parameter; it does not touch hierarchy edges or
    arrays. *)
Variable IdState : Type.
Variable mxObjectIdentity_get : value → IdState → value * IdState.

(** A computation on the object store, run next to the identity state. *)
Definition on_heap {A} (m : M A) : ST (heap * IdState) A :=
  λ w, match m w.1 with
       | Some (a, h') => Some (a, (h', w.2))
       | None => None
       end.

Definition identity_of (obj : value) : ST (heap * IdState) value :=
  λ w, let r := mxObjectIdentity_get obj w.2 in Some (r.1, (w.1, r.2)).

(** [i < edges.length] *)
Definition below_length (l : loc) (i : nat) : M bool :=
  a <- load_array l ;;
  ret (bool_decide (i < len a)%nat).

(** [new mxGraphHierarchyEdge(edges)].  [super_] is the state in which
    the constructor of the base class leaves the inherited fields; the
    fields of the class itself start out as their initialisers say. *)
Definition constructor (super_ : AbstractHierarchyCell) (edges_ : loc)
    : ST (heap * IdState) loc :=
  this <- on_heap (new_object (OEdge
            {| cell := super_; edges := None; ids := None;
               source := VNull; target := VNull; isReversed := false |})) ;;
  on_heap (update_edge this (set_edges (Some edges_))) ;;;
  fresh_ <- on_heap new_array ;;
  on_heap (update_edge this (set_ids (Some fresh_))) ;;;
  a0 <- on_heap (load_array edges_) ;;
  for_loop (S (len a0)) (λ i, on_heap (below_length edges_ i))
    (λ i,
       e <- on_heap (load_edge this) ;;
       l <- on_heap (array_of_field (ids e)) ;;
       a <- on_heap (load_array edges_) ;;
       token <- identity_of (array_get a (Z.of_nat i)) ;;
       on_heap (update_array l (λ b, array_push b token)))
    0%nat ;;;
  ret this.

(** The tokens that successive calls of [mxObjectIdentity.get] hand
    out for the objects of a list, and the identity state after them. *)
Fixpoint identities (objs : list value) (s : IdState) : list value * IdState :=
  match objs with
  | [] => ([], s)
  | obj :: objs' =>
      let r := mxObjectIdentity_get obj s in
      let rs := identities objs' r.2 in
      (r.1 :: rs.1, rs.2)
  end.

(** While the loop of the constructor runs: the array at [idl] holds
    the tokens of the first [i] wrapped edges, the identity state is the
    one after those [i] calls, and no other object has changed since the
    loop was entered with store [hs] and identity state [s0]. *)
Definition collecting (hs : heap) (s0 : IdState) (a : jsarray) (idl : loc)
    (i : nat) (w : heap * IdState) : Prop :=
  (∀ l, l ≠ idl → w.1 !! l = hs !! l) ∧
  w.1 !! idl = Some (OArray (array_of_list (identities (take i (array_elems a)) s0).1)) ∧
  w.2 = (identities (take i (array_elems a)) s0).2.

End Constructor.


(** ** What a built cache looks like *)

(** The cell that [getNextLayerConnectedCells] puts into slot [j] of its
    cache, and the one that [getPreviousLayerConnectedCells] puts there. *)
Definition next_cell (this : loc) (e : HierarchyEdge) (t : jsarray) (j : nat) : value :=
  if Z.of_nat j =? Z.of_nat (len t) - 1 then source e else VRef this.

Definition previous_cell (this : loc) (e : HierarchyEdge) (j : nat) : value :=
  if Z.of_nat j =? 0 then target e else VRef this.

(** While a cache is being filled: the first [i] slots of the array at
    [outer] each refer to an array of their own, created after the loop
    was entered with store [h1], that holds the one cell [pick j]; the
    array at [outer] holds nothing else, and no object of [h1] other
    than the one at [outer] has changed. *)
Definition filled (h1 h : heap) (outer : loc) (pick : nat → value) (i : nat) : Prop :=
  (∀ l, is_Some (h1 !! l) → l ≠ outer → h !! l = h1 !! l) ∧
  ∃ o, h !! outer = Some (OArray o) ∧
       (∀ k, is_Some (props o !! k) → 0 ≤ k < Z.of_nat i) ∧
       (∀ j, (j < i)%nat →
          ∃ r, props o !! Z.of_nat j = Some (VRef r) ∧ h1 !! r = None ∧
               h !! r = Some (OArray (array_of_list [pick j]))).

(** The store after [this.nextLayerConnectedCells[i] = []] (or the same
    for the other cache) on store [h], where the cache is the array [o]
    at [outer]: a new empty array exists and slot [i] refers to it. *)
Definition slot_store (h : heap) (outer : loc) (o : jsarray) (i : nat) : heap :=
  <[outer := OArray (array_set o (Z.of_nat i) (VRef (fresh (dom h))))]>
    (<[fresh (dom h) := OArray empty_array]> h).

(** A finished cache of [n] slots at [outer], built from store [h0]
    with result store [h']: [outer] and the one-element arrays of the
    slots are new objects, and of the objects of [h0] only the edge at
    [this] has changed. *)
Record built (h0 h' : heap) (this : loc) (n : nat) (pick : nat → value)
    (outer : loc) (o : jsarray) : Prop := Built {
  built_fresh : h0 !! outer = None;
  built_outer : h' !! outer = Some (OArray o);
  built_keys : ∀ k, is_Some (props o !! k) → 0 ≤ k < Z.of_nat n;
  built_slots : ∀ j, (j < n)%nat →
    ∃ r, props o !! Z.of_nat j = Some (VRef r) ∧ h0 !! r = None ∧
         h' !! r = Some (OArray (array_of_list [pick j]));
  built_frame : ∀ l, is_Some (h0 !! l) → l ≠ this → h' !! l = h0 !! l
}.

(** ** The extent of a cache *)

(** The array at [outer] has length [i], and its first [i] slots refer
    to [i] different objects. *)
Definition apart (h : heap) (outer : loc) (i : nat) : Prop :=
  ∃ o, h !! outer = Some (OArray o) ∧ len o = i ∧
       ∀ j j' r, (j < i)%nat → (j' < i)%nat →
         props o !! Z.of_nat j = Some (VRef r) →
         props o !! Z.of_nat j' = Some (VRef r) → j = j'.

(** ** A small store to run the methods on *)

(** An edge from the node at 3 to the node at 4 that wraps the two
    external edges at 7 and 8, with [minRank = 0], [maxRank = 2], two
    scratch slots and no cache built yet. *)
Definition example_cell : AbstractHierarchyCell :=
  {| id := VUndefined; maxRank := 2; minRank := 0;
     nextLayerConnectedCells := None; previousLayerConnectedCells := None;
     temp := 2%positive |}.

Definition example_edge : HierarchyEdge :=
  {| cell := example_cell; edges := Some 5%positive; ids := Some 6%positive;
     source := VRef 3%positive; target := VRef 4%positive; isReversed := false |}.

Definition example_temp : jsarray := array_of_list [VNum 0; VNum 1].

Definition example_edges : jsarray := array_of_list [VRef 7%positive; VRef 8%positive].

Definition example_store : heap :=
  <[1%positive := OEdge example_edge]>
    (<[2%positive := OArray example_temp]>
       (<[3%positive := OOpaque]>
          (<[4%positive := OOpaque]>
             (<[5%positive := OArray example_edges]>
                (<[6%positive := OArray (array_of_list [VStr "mxCell#7"; VStr "mxCell#8"])]>
                   (<[7%positive := OOpaque]>
                      (<[8%positive := OOpaque]> ∅))))))).

(** The same edge after a first [getNextLayerConnectedCells]: the
    cache is the array at 10, with the arrays at 11 and 12 as slots. *)
Definition cached_edge : HierarchyEdge :=
  set_nextLayerConnectedCells (Some 10%positive) example_edge.

Definition cached_store : heap :=
  <[1%positive := OEdge cached_edge]>
    (<[10%positive := OArray (array_of_list [VRef 11%positive; VRef 12%positive])]>
       (<[11%positive := OArray (array_of_list [VRef 1%positive])]>
          (<[12%positive := OArray (array_of_list [VRef 3%positive])]> example_store))).

(** ** Where the model of numbers and of array lengths is exact *)

(** JavaScript numbers are doubles.  Every integer from [-2^53] to
    [2^53] is a double, and a difference of two doubles is the double
    nearest to the true difference, so it is the true difference
    whenever that is such an integer. *)
Definition exact (z : Z) : Prop := - 2 ^ 53 ≤ z ≤ 2 ^ 53.

(** The key [layer - minRank - 1] as the code computes it is the
    integer [layer - m - 1]. *)
Definition exact_key (m layer : Z) : Prop :=
  exact layer ∧ exact m ∧ exact (layer - m) ∧ exact (layer - m - 1).

(** A key that is negative or an array index: a key from [2^32 - 1] on
    is no array index, and an assignment to it leaves [length] alone,
    which [array_set] does not show. *)
Definition below_index_limit (k : Z) : Prop := k < 2 ^ 32 - 1.

(** An edge between the same nodes on which nothing has been set up:
    [minRank = 0] and [temp] is the empty array. *)
Definition bare_edge : HierarchyEdge :=
  {| cell := {| id := VUndefined; maxRank := 0; minRank := 0;
                nextLayerConnectedCells := None; previousLayerConnectedCells := None;
                temp := 2%positive |};
     edges := None; ids := None;
     source := VRef 3%positive; target := VRef 4%positive; isReversed := false |}.

Definition bare_store : heap :=
  <[1%positive := OEdge bare_edge]>
    (<[2%positive := OArray empty_array]>
       (<[3%positive := OOpaque]> (<[4%positive := OOpaque]> ∅))).

(** The store after [setGeneralPurposeVariable(0, 5)] on the bare edge:
    [temp] has got the property [-1] and still has length 0. *)
Definition stray_temp : jsarray := array_set empty_array (-1) (VNum 5).

Definition stray_store : heap := <[2%positive := OArray stray_temp]> bare_store.

(** A stand-in for [mxObjectIdentity.get] to run the constructor with:
    the tokens are the numbers 0, 1, 2, ... in the order of the calls. *)
Definition counting_identity (obj : value) (n : nat) : value * nat :=
  (VNum (Z.of_nat n), S n).

(** * mxXmlRequest: posting the parameters through a form

    A shallow embedding of the constructor and of [simulate] of
    [src/mxgraph/util/network/mxXmlRequest.js].  [simulate] talks to the
    browser: it reads and writes [window.onbeforeunload] and it calls
    methods of the document, of the form and of the text areas it
    creates.  The embedding keeps the handler and the list of those
    calls, in the order in which they are made, as its state; whether
    a call throws is for the browser to say and a parameter of the
    embedding.  The characters of a string stand for the code units of
    the JavaScript string; [simulate] itself looks for [&] and [=]
    only. *)

Module XmlRequest.

(** ** JavaScript strings *)

(** [s.indexOf(c)] for a one-character string [c], counted from [i]:
    the index of the first occurrence, or [-1]. *)
Fixpoint index_from (c : ascii) (s : string) (i : Z) : Z :=
  match s with
  | EmptyString => -1
  | String a s' => if Ascii.eqb a c then i else index_from c s' (i + 1)
  end.

Definition indexOf (s : string) (c : ascii) : Z := index_from c s 0.

(** [s.split(c)] for a one-character string [c]. *)
Fixpoint split (c : ascii) (s : string) : list string :=
  match s with
  | EmptyString => [EmptyString]
  | String a s' =>
      if Ascii.eqb a c then EmptyString :: split c s'
      else match split c s' with
           | piece :: pieces => String a piece :: pieces
           | [] => [String a EmptyString]
           end
  end.

Fixpoint take_units (n : nat) (s : string) : string :=
  match n, s with
  | S n', String a s' => String a (take_units n' s')
  | _, _ => EmptyString
  end.

Fixpoint drop_units (n : nat) (s : string) : string :=
  match n, s with
  | S n', String _ s' => drop_units n' s'
  | _, _ => s
  end.

(** [s.substring(start, end)], and [s.substring(start)] when [end_] is
    [None]: both positions are clamped to [0 .. s.length] and swapped
    when the first is the larger one. *)
Definition substring (s : string) (start : Z) (end_ : option Z) : string :=
  let n := String.length s in
  let clamp (z : Z) : nat := Z.to_nat (Z.min (Z.max z 0) (Z.of_nat n)) in
  let a := clamp start in
  let b := match end_ with Some z => clamp z | None => n end in
  take_units (Nat.max a b - Nat.min a b) (drop_units (Nat.min a b) s).

(** ** The request and the browser *)

(** The fields of [mxXmlRequest].  [params] may be [null], here [None];
    [request] holds the browser's request object once [send] has
    created it. *)
Record mxXmlRequest := Request {
  url : string;
  params : option string;
  method : string;
  async : bool;
  binary : bool;
  withCredentials : bool;
  username : option string;
  password : option string;
  request : value;
  decodeSimulateValues : bool
}.

(** [new mxXmlRequest(url, params, method, async, username, password)];
    an argument that is left out or [null] is [None]. *)
Definition constructor (url_ : string) (params_ : option string) (method_ : option string)
    (async_ : option bool) (username_ password_ : option string) : mxXmlRequest :=
  {| url := url_;
     params := params_;
     method := match method_ with
               | Some EmptyString | None => "POST"
               | Some m => m
               end;
     async := match async_ with Some b => b | None => true end;
     binary := false;
     withCredentials := false;
     username := username_;
     password := password_;
     request := VNull;
     decodeSimulateValues := false |}.

(** The calls that [simulate] makes on the document, on the form and on
    the text area it has created last.  [WriteText] is
    [mxUtils.write(textarea, value)], a function of another module,
    taken as one call. *)
Inductive dom_call :=
| CreateElement (tag : string)
| FormSetAttribute (name text : string)
| FormSetStyle (property text : string)
| TextareaSetAttribute (name text : string)
| WriteText (text : string)
| FormAppendChild
| BodyAppendChild
| FormSubmit
| ParentRemoveChild.

Record browser := Browser {
  onbeforeunload : value;
  calls : list dom_call
}.

(** What a call on the document, on the form or on a text area throws,
    when it throws: a [TypeError] (as [doc.body.appendChild] does on a
    document without a body), or an exception with another name. *)
Inductive error := TypeError | URIError | OtherError (name : string).

Inductive outcome (A : Type) :=
| Done (a : A)
| Thrown (e : error).

Arguments Done {A} a.
Arguments Thrown {A} e.

(** A computation in the browser ends with a result or with an
    exception; either way it leaves a state of the browser behind. *)
Definition Dom (A : Type) : Type := browser → outcome A * browser.

#[global] Instance Dom_ret : MRet Dom := λ A a b, (Done a, b).

#[global] Instance Dom_bind : MBind Dom :=
  λ A B k m b, match m b with
               | (Done a, b') => k a b'
               | (Thrown e, b') => (Thrown e, b')
               end.

Definition throw {A} (e : error) : Dom A := λ b, (Thrown e, b).

Definition get_onbeforeunload : Dom value := λ b, (Done (onbeforeunload b), b).

Definition set_onbeforeunload (v : value) : Dom unit :=
  λ b, (Done tt, {| onbeforeunload := v; calls := calls b |}).

(** [for (let i = 0; i < pars.length; i += 1) body(pars[i])] over an
    array that the body does not touch. *)
Fixpoint for_each {A} (body : A → Dom unit) (xs : list A) : Dom unit :=
  match xs with
  | [] => mret tt
  | x :: xs' => _ ← body x; for_each body xs'
  end.

(** [v != null] *)
Definition not_null (v : value) : bool :=
  match v with
  | VNull | VUndefined => false
  | _ => true
  end.

Section Simulate.

(** [decodeURIComponent] is the browser's; it throws a [URIError], here
    [None], on a string that is not a valid encoding. *)
Variable decodeURIComponent : string → option string.

(** The document, the form and the text areas are the browser's too.
    Whether a call on them throws, after the calls made so far, is for
    the browser to say: [dom_throws made c] is the exception, if any. *)
Variable dom_throws : list dom_call → dom_call → option error.

(** A call that returns is entered in the list of calls; a call that
    throws is not. *)
Definition call (c : dom_call) : Dom unit :=
  λ b, match dom_throws (calls b) c with
       | Some e => (Thrown e, b)
       | None => (Done tt, {| onbeforeunload := onbeforeunload b; calls := calls b ++ [c] |})
       end.

(** The body of the loop of [simulate] for one piece of [params]. *)
Definition add_textarea (this : mxXmlRequest) (par : string) : Dom unit :=
  let pos := indexOf par "=" in
  if 0 <? pos then
    let name := substring par 0 (Some pos) in
    let value_ := substring par (pos + 1) None in
    value_ ← (if decodeSimulateValues this
              then match decodeURIComponent value_ with
                   | Some decoded => mret decoded
                   | None => throw URIError
                   end
              else mret value_);
    _ ← call (CreateElement "textarea");
    _ ← call (TextareaSetAttribute "wrap" "off");
    _ ← call (TextareaSetAttribute "name" name);
    _ ← call (WriteText value_);
    call FormAppendChild
  else mret tt.

(** [simulate(doc, target)].  [own_document] says whether [doc], after
    [doc = doc || document], is the document of the page; [target] is
    [None] for [null]; [attached] says whether the form still has a
    parent node when [submit] has returned. *)
Definition simulate (this : mxXmlRequest) (own_document : bool) (target : option string)
    (attached : bool) : Dom unit :=
  old ← (if own_document
         then old ← get_onbeforeunload;
              _ ← set_onbeforeunload VNull;
              mret old
         else mret VNull);
  _ ← call (CreateElement "form");
  _ ← call (FormSetAttribute "method" (method this));
  _ ← call (FormSetAttribute "action" (url this));
  _ ← match target with
      | Some t => call (FormSetAttribute "target" t)
      | None => mret tt
      end;
  _ ← call (FormSetStyle "display" "none");
  _ ← call (FormSetStyle "visibility" "hidden");
  params_ ← match params this with
            | Some p => mret p
            | None => throw TypeError
            end;
  let pars := if 0 <? indexOf params_ "&" then split "&" params_ else [params_] in
  _ ← for_each (add_textarea this) pars;
  _ ← call BodyAppendChild;
  _ ← call FormSubmit;
  _ ← (if attached then call ParentRemoveChild else mret tt);
  if not_null old then set_onbeforeunload old else mret tt.

End Simulate.

(** ** Words to state what [simulate] does *)

(** The calls that set up the form, up to the point where [params] is
    read. *)
Definition form_calls (this : mxXmlRequest) (target : option string) : list dom_call :=
  [CreateElement "form";
   FormSetAttribute "method" (method this);
   FormSetAttribute "action" (url this)]
  ++ match target with Some t => [FormSetAttribute "target" t] | None => [] end
  ++ [FormSetStyle "display" "none"; FormSetStyle "visibility" "hidden"].

(** The calls that add one text area with a name and a text. *)
Definition textarea_calls (field : string * string) : list dom_call :=
  [CreateElement "textarea";
   TextareaSetAttribute "wrap" "off";
   TextareaSetAttribute "name" field.1;
   WriteText field.2;
   FormAppendChild].

(** The calls after the loop. *)
Definition submit_calls (attached : bool) : list dom_call :=
  [BodyAppendChild; FormSubmit] ++ (if attached then [ParentRemoveChild] else []).

(** All the calls of a run that posts the given fields. *)
Definition script (this : mxXmlRequest) (target : option string) (attached : bool)
    (fields : list (string * string)) : list dom_call :=
  form_calls this target ++ flat_map textarea_calls fields ++ submit_calls attached.

(** None of the calls [cs], made in this order after the calls
    [before], throws. *)
Definition none_throws (dom_throws : list dom_call → dom_call → option error)
    (before cs : list dom_call) : Prop :=
  ∀ made c rest, cs = made ++ c :: rest → dom_throws (before ++ made) c = None.

(** [name=text] side by side, joined with [&]: the format of [params]. *)
Fixpoint join (sep : ascii) (pieces : list string) : string :=
  match pieces with
  | [] => EmptyString
  | [piece] => piece
  | piece :: pieces' => piece +:+ String sep (join sep pieces')
  end.

Definition encode_field (field : string * string) : string :=
  field.1 +:+ String "=" field.2.

Definition encode_fields (fields : list (string * string)) : string :=
  join "&" (map encode_field fields).

(** [c] occurs in [s]. *)
Fixpoint occurs (c : ascii) (s : string) : Prop :=
  match s with
  | EmptyString => False
  | String a s' => a = c ∨ occurs c s'
  end.

(** A list of fields that [encode_fields] writes unambiguously: no name
    is empty or holds [=] or [&], and no text holds [&]. *)
Definition plain_field (field : string * string) : Prop :=
  field.1 ≠ EmptyString ∧ ¬ occurs "=" field.1 ∧ ¬ occurs "&" field.1 ∧
  ¬ occurs "&" field.2.

(** The text that [simulate] writes for the text of a field of
    [params]: the decoded text if [decodeSimulateValues] is set, the
    text itself if not. *)
Definition shown (decodeURIComponent : string → option string) (this : mxXmlRequest)
    (field field' : string * string) : Prop :=
  field'.1 = field.1 ∧
  if decodeSimulateValues this
  then decodeURIComponent field.2 = Some field'.2
  else field'.2 = field.2.

(** The browser when [simulate] has put the handler aside. *)
Definition started (own_document : bool) (b : browser) : browser :=
  {| onbeforeunload := if own_document then VNull else onbeforeunload b;
     calls := calls b |}.

(** The browser after some more calls. *)
Definition after (b : browser) (made : list dom_call) : browser :=
  {| onbeforeunload := onbeforeunload b; calls := calls b ++ made |}.

(** The pieces of [params] that the loop of [simulate] goes through. *)
Definition pieces (p : string) : list string :=
  if 0 <? indexOf p "&" then split "&" p else [p].

(** What [simulate] leaves in [window.onbeforeunload] when it returns:
    in the document of the page the handler it found, or [null] if it
    found [null] or [undefined]; in another document what was there. *)
Definition handler_after (own_document : bool) (b : browser) : value :=
  if own_document
  then if not_null (onbeforeunload b) then onbeforeunload b else VNull
  else onbeforeunload b.

(** What [simulate] leaves in [window.onbeforeunload] when it throws:
    [null] in the document of the page, where the handler it had put
    aside is not put back. *)
Definition handler_left (own_document : bool) (b : browser) : value :=
  if own_document then VNull else onbeforeunload b.

End XmlRequest.

(** ** A request to run [simulate] on *)

Definition example_request : XmlRequest.mxXmlRequest :=
  XmlRequest.constructor "http://host/save" (Some "xml=%3Cg%2F%3E&name=a=b")
    None None None None.

(** A request whose [params] begins with [&]. *)
Definition amp_request : XmlRequest.mxXmlRequest :=
  XmlRequest.constructor "http://host/save" (Some "&a=1&b=2") None None None None.

Definition example_browser : XmlRequest.browser :=
  {| XmlRequest.onbeforeunload := VRef 9%positive; XmlRequest.calls := [] |}.

(** A stand-in for [decodeURIComponent] that rejects a lone [%] and
    leaves every other string as it is. *)
Definition decode_stub (s : string) : option string :=
  if String.eqb s "%" then None else Some s.

(** A browser in which no call throws. *)
Definition never_throws (made : list XmlRequest.dom_call) (c : XmlRequest.dom_call) :
    option XmlRequest.error := None.

(** A document without a body: [doc.body] is [null], and
    [doc.body.appendChild(form)] throws a [TypeError]. *)
Definition no_body (made : list XmlRequest.dom_call) (c : XmlRequest.dom_call) :
    option XmlRequest.error :=
  match c with
  | XmlRequest.BodyAppendChild => Some XmlRequest.TypeError
  | _ => None
  end.

(** * Proofs *)

(** ** Running computations *)

Lemma bind_Some {St A B} (m : ST St A) (k : A → ST St B) s a s' :
  m s = Some (a, s') → bind m k s = k a s'.
Proof. unfold bind. by intros ->. Qed.

Lemma load_edge_Some this e (h : heap) :
  h !! this = Some (OEdge e) → load_edge this h = Some (e, h).
Proof. unfold load_edge. by intros ->. Qed.

Lemma update_edge_Some this f e (h : heap) :
  h !! this = Some (OEdge e) →
  update_edge this f h = Some (tt, <[this := OEdge (f e)]> h).
Proof. intros H. unfold update_edge. by rewrite (bind_Some _ _ _ _ _ (load_edge_Some _ _ _ H)). Qed.

Lemma load_array_Some l a (h : heap) :
  h !! l = Some (OArray a) → load_array l h = Some (a, h).
Proof. unfold load_array. by intros ->. Qed.

Lemma update_array_Some l f a (h : heap) :
  h !! l = Some (OArray a) →
  update_array l f h = Some (tt, <[l := OArray (f a)]> h).
Proof. intros H. unfold update_array. by rewrite (bind_Some _ _ _ _ _ (load_array_Some _ _ _ H)). Qed.

Lemma new_object_Some o (h : heap) :
  new_object o h = Some (fresh (dom h), <[fresh (dom h) := o]> h).
Proof. reflexivity. Qed.

Lemma fresh_not_in (h : heap) : h !! fresh (dom h) = None.
Proof. apply not_elem_of_dom, is_fresh. Qed.

Lemma fresh_ne (h : heap) l o : h !! l = Some o → l ≠ fresh (dom h).
Proof. intros H ->. by rewrite fresh_not_in in H. Qed.

(** ** Arrays *)

Lemma array_get_set a k v : array_get (array_set a k v) k = v.
Proof. unfold array_get, array_set; simpl. by rewrite lookup_insert_eq. Qed.

Lemma array_get_set_ne a k k' v : k ≠ k' → array_get (array_set a k v) k' = array_get a k'.
Proof. intros. unfold array_get, array_set; simpl. by rewrite lookup_insert_ne. Qed.

Lemma array_of_list_singleton v :
  array_of_list [v] = {| props := {[0 := v]}; len := 1 |}.
Proof. unfold array_of_list, array_push; simpl. by rewrite insert_empty. Qed.

(** ** invert *)

Lemma invert_Some this e (h : heap) :
  h !! this = Some (OEdge e) →
  invert this h =
    Some (tt, <[this := OEdge {| cell := cell e; edges := edges e; ids := ids e;
                                 source := target e; target := source e;
                                 isReversed := negb (isReversed e) |}]> h).
Proof.
  intros H. unfold invert.
  rewrite (bind_Some _ _ _ _ _ (load_edge_Some _ _ _ H)).
  rewrite (bind_Some _ _ _ _ _ (update_edge_Some _ _ _ _ H)).
  erewrite bind_Some; last by apply update_edge_Some, lookup_insert_eq.
  erewrite update_edge_Some; last by apply lookup_insert_eq.
  by rewrite !insert_insert_eq.
Qed.

(** C3: [invert()] swaps [source] and [target] and toggles [isReversed]. *)
Theorem invert_swaps this e s t b (h : heap) :
  h !! this = Some (OEdge e) →
  source e = s → target e = t → isReversed e = b →
  ∃ h' e', invert this h = Some (tt, h') ∧ h' !! this = Some (OEdge e') ∧
           source e' = t ∧ target e' = s ∧ isReversed e' = negb b.
Proof.
  intros H <- <- <-. eexists _, _. split; first by apply invert_Some.
  rewrite lookup_insert_eq. done.
Qed.

(** C4: two calls of [invert()] in a row restore [source], [target] and
    [isReversed]; in fact they restore the whole store. *)
Theorem invert_twice this e (h : heap) :
  h !! this = Some (OEdge e) →
  ∃ h' e', (invert this ;;; invert this) h = Some (tt, h') ∧
           h' !! this = Some (OEdge e') ∧
           source e' = source e ∧ target e' = target e ∧
           isReversed e' = isReversed e ∧ h' = h.
Proof.
  intros H. exists h, e.
  rewrite (bind_Some _ _ _ _ _ (invert_Some _ _ _ H)).
  erewrite invert_Some; last by apply lookup_insert_eq.
  simpl. rewrite insert_insert_eq, negb_involutive.
  destruct e as [c es tokens s t b]; simpl.
  rewrite insert_id by done. done.
Qed.

(** C5: [invert()] writes [source], [target] and [isReversed] and
    nothing else: the ranks, [temp], [edges], [ids] and the two caches
    keep their values, and every other object of the store, the arrays
    behind those fields among them, is left as it was. *)
Theorem invert_frame this e (h : heap) :
  h !! this = Some (OEdge e) →
  ∃ h' e', invert this h = Some (tt, h') ∧ h' !! this = Some (OEdge e') ∧
    minRank (cell e') = minRank (cell e) ∧
    maxRank (cell e') = maxRank (cell e) ∧
    temp (cell e') = temp (cell e) ∧
    edges e' = edges e ∧
    ids e' = ids e ∧
    nextLayerConnectedCells (cell e') = nextLayerConnectedCells (cell e) ∧
    previousLayerConnectedCells (cell e') = previousLayerConnectedCells (cell e) ∧
    cell e' = cell e ∧
    (∀ l, l ≠ this → h' !! l = h !! l) ∧
    (∀ l a, h !! l = Some (OArray a) → h' !! l = Some (OArray a)).
Proof.
  intros H. eexists _, _. split; first by apply invert_Some.
  rewrite lookup_insert_eq. split; first done. simpl.
  repeat (split; first done). split.
  - intros l Hl. by rewrite lookup_insert_ne.
  - intros l a Hl. rewrite lookup_insert_ne; first done.
    intros ->. congruence.
Qed.

(** ** The scratch slots *)

Lemma getGeneralPurposeVariable_Some this e t layer (h : heap) :
  h !! this = Some (OEdge e) →
  h !! temp (cell e) = Some (OArray t) →
  getGeneralPurposeVariable this layer h =
    Some (array_get t (layer - minRank (cell e) - 1), h).
Proof.
  intros He Ht. unfold getGeneralPurposeVariable.
  rewrite (bind_Some _ _ _ _ _ (load_edge_Some _ _ _ He)).
  by rewrite (bind_Some _ _ _ _ _ (load_array_Some _ _ _ Ht)).
Qed.

Lemma setGeneralPurposeVariable_Some this e t layer v (h : heap) :
  h !! this = Some (OEdge e) →
  h !! temp (cell e) = Some (OArray t) →
  setGeneralPurposeVariable this layer v h =
    Some (tt, <[temp (cell e) := OArray (array_set t (layer - minRank (cell e) - 1) v)]> h).
Proof.
  intros He Ht. unfold setGeneralPurposeVariable.
  rewrite (bind_Some _ _ _ _ _ (load_edge_Some _ _ _ He)).
  by rewrite (update_array_Some _ _ _ _ Ht).
Qed.


(** ** getCoreCell *)

(** C8: [getCoreCell()] returns [edges[0]] when [edges] is an array with
    at least one element, and [null] when [edges] is [null] or empty. *)
Theorem getCoreCell_first_or_null this e (h : heap) :
  h !! this = Some (OEdge e) →
  (edges e = None → getCoreCell this h = Some (VNull, h)) ∧
  (∀ l a, edges e = Some l → h !! l = Some (OArray a) →
     (len a = 0%nat → getCoreCell this h = Some (VNull, h)) ∧
     (len a ≠ 0%nat → getCoreCell this h = Some (array_get a 0, h))).
Proof.
  intros He. unfold getCoreCell.
  rewrite (bind_Some _ _ _ _ _ (load_edge_Some _ _ _ He)). split.
  - by intros ->.
  - intros l a -> Ha.
    rewrite (bind_Some _ _ _ _ _ (load_array_Some _ _ _ Ha)).
    split; intros Hlen; case_decide; (done || lia).
Qed.

(** ** Loops *)

(** A loop that counts up to [n] and keeps an invariant runs to the end
    on any [fuel] above the number of rounds that are left. *)
Lemma for_loop_invariant {St} (Inv : nat → St → Prop) cond body (n : nat) :
  (∀ i s, Inv i s → cond i s = Some (bool_decide (i < n)%nat, s)) →
  (∀ i s, (i < n)%nat → Inv i s → ∃ s', body i s = Some (tt, s') ∧ Inv (S i) s') →
  ∀ k i s fuel, (i + k = n)%nat → (k < fuel)%nat → Inv i s →
    ∃ s', for_loop fuel cond body i s = Some (tt, s') ∧ Inv n s'.
Proof.
  intros Hcond Hbody. induction k as [|k IH]; intros i s fuel Hik Hfuel HI.
  - destruct fuel as [|fuel]; first lia. simpl.
    rewrite (bind_Some _ _ _ _ _ (Hcond _ _ HI)).
    rewrite bool_decide_eq_false_2 by lia.
    exists s. split; first done. by replace n with i by lia.
  - destruct fuel as [|fuel]; first lia. simpl.
    rewrite (bind_Some _ _ _ _ _ (Hcond _ _ HI)).
    rewrite bool_decide_eq_true_2 by lia.
    destruct (Hbody i s) as (s' & Hs' & HI'); [lia|done|].
    rewrite (bind_Some _ _ _ _ _ Hs').
    apply IH; [lia|lia|done].
Qed.

(** ** Filling a cache *)

(** What the store holds while a cache is filled. *)
Lemma filled_lookup h1 h outer pick i l ob :
  filled h1 h outer pick i → h1 !! l = Some ob → l ≠ outer → h !! l = Some ob.
Proof. intros [Hfr _] Hl Hne. rewrite Hfr; eauto. Qed.

Lemma filled_fresh_old h1 h outer pick i :
  is_Some (h1 !! outer) → filled h1 h outer pick i → h1 !! fresh (dom h) = None.
Proof.
  intros Hout [Hfr (o & Ho & _)].
  destruct (h1 !! fresh (dom h)) as [ob|] eqn:E; last done.
  destruct (decide (fresh (dom h) = outer)) as [Heq|Hne].
  - rewrite Heq in *. pose proof (fresh_not_in h) as Hf. rewrite Heq in Hf. congruence.
  - pose proof (fresh_not_in h) as Hf. rewrite Hfr in Hf; eauto. congruence.
Qed.

(** One round: a new array takes slot [i] and receives its cell. *)
Lemma filled_step h1 h outer pick i o :
  is_Some (h1 !! outer) →
  filled h1 h outer pick i →
  h !! outer = Some (OArray o) →
  filled h1
    (<[fresh (dom h) := OArray (array_push empty_array (pick i))]> (slot_store h outer o i))
    outer pick (S i).
Proof.
  intros Hout HI Ho. unfold slot_store.
  pose proof (filled_fresh_old _ _ _ _ _ Hout HI) as Hold.
  pose proof (fresh_ne _ _ _ Ho) as Hne.
  destruct HI as [Hfr (o' & Ho' & Hkeys & Hslots)].
  assert (o' = o) as -> by congruence.
  split.
  - intros l Hl Hlo.
    assert (l ≠ fresh (dom h)) by (intros ->; rewrite Hold in Hl; by destruct Hl).
    rewrite !lookup_insert_ne by done. by apply Hfr.
  - exists (array_set o (Z.of_nat i) (VRef (fresh (dom h)))).
    split. { rewrite lookup_insert_ne by done. by rewrite lookup_insert_eq. }
    split.
    + intros k. simpl. destruct (decide (k = Z.of_nat i)) as [->|Hk]; first lia.
      rewrite lookup_insert_ne by done. intros Hs%Hkeys. lia.
    + intros j Hj. destruct (decide (j = i)) as [->|Hji].
      * exists (fresh (dom h)). simpl. rewrite !lookup_insert_eq. done.
      * destruct (Hslots j) as (r & Hr & Hr1 & Hr2); first lia.
        exists r. simpl. rewrite lookup_insert_ne by lia.
        split; first done. split; first done.
        assert (r ≠ fresh (dom h)) by (by apply fresh_ne in Hr2).
        assert (r ≠ outer) by (intros ->; rewrite Hr1 in Hout; by destruct Hout).
        by rewrite !lookup_insert_ne.
Qed.

(** ** Running the bodies of the loops *)

Lemma below_temp_length_Some this e t i (h : heap) :
  h !! this = Some (OEdge e) →
  h !! temp (cell e) = Some (OArray t) →
  below_temp_length this i h = Some (bool_decide (i < len t)%nat, h).
Proof.
  intros He Ht. unfold below_temp_length.
  rewrite (bind_Some _ _ _ _ _ (load_edge_Some _ _ _ He)).
  by rewrite (bind_Some _ _ _ _ _ (load_array_Some _ _ _ Ht)).
Qed.

Lemma fresh_ne' (h : heap) l o : h !! l = Some o → fresh (dom h) ≠ l.
Proof. intros H Heq. by apply (fresh_ne _ _ _ H). Qed.

Lemma bind_ret {St A B} (a : A) (k : A → ST St B) s : bind (ret a) k s = k a s.
Proof. reflexivity. Qed.

(** The rounds of the two loops, run on a store whose lookups are known. *)
Section Round.

Variables (this outer : loc) (e : HierarchyEdge) (t o : jsarray) (i : nat) (h : heap).
Hypothesis He : h !! this = Some (OEdge e).
Hypothesis Ht : h !! temp (cell e) = Some (OArray t).
Hypothesis Ho : h !! outer = Some (OArray o).

Lemma round_alloc :
  (<[fresh (dom h) := OArray empty_array]> h) !! outer = Some (OArray o).
Proof. rewrite lookup_insert_ne; [done | by eapply fresh_ne']. Qed.

Lemma round_edge : slot_store h outer o i !! this = Some (OEdge e).
Proof.
  unfold slot_store. rewrite !lookup_insert_ne; first done.
  - by eapply fresh_ne'.
  - intros ->. congruence.
Qed.

Lemma round_temp :
  temp (cell e) ≠ outer → slot_store h outer o i !! temp (cell e) = Some (OArray t).
Proof.
  intros Hne. unfold slot_store. rewrite !lookup_insert_ne; [done| |done].
  by eapply fresh_ne'.
Qed.

Lemma round_outer :
  slot_store h outer o i !! outer =
    Some (OArray (array_set o (Z.of_nat i) (VRef (fresh (dom h))))).
Proof. unfold slot_store. by rewrite lookup_insert_eq. Qed.

Lemma round_inner : slot_store h outer o i !! fresh (dom h) = Some (OArray empty_array).
Proof.
  unfold slot_store. rewrite lookup_insert_ne, lookup_insert_eq; first done.
  apply not_eq_sym. by eapply fresh_ne'.
Qed.

Lemma next_round_Some :
  nextLayerConnectedCells (cell e) = Some outer →
  temp (cell e) ≠ outer →
  next_round this i h =
    Some (tt, <[fresh (dom h) := OArray (array_push empty_array (next_cell this e t i))]>
                (slot_store h outer o i)).
Proof.
  intros Hc Hne. unfold next_round, new_array.
  rewrite (bind_Some _ _ _ _ _ (load_edge_Some _ _ _ He)).
  rewrite Hc. simpl array_of_field. rewrite bind_ret.
  rewrite (bind_Some _ _ _ _ _ (new_object_Some _ _)).
  rewrite (bind_Some _ _ _ _ _ (update_array_Some _ _ _ _ round_alloc)).
  fold (slot_store h outer o i).
  rewrite (bind_Some _ _ _ _ _ (load_edge_Some _ _ _ round_edge)).
  rewrite (bind_Some _ _ _ _ _ (load_array_Some _ _ _ (round_temp Hne))).
  rewrite Hc. simpl array_of_field. rewrite bind_ret.
  rewrite (bind_Some _ _ _ _ _ (load_array_Some _ _ _ round_outer)).
  rewrite array_get_set. unfold next_cell, push_onto.
  destruct (Z.of_nat i =? Z.of_nat (len t) - 1);
    by rewrite (update_array_Some _ _ _ _ round_inner).
Qed.

Lemma previous_round_Some :
  previousLayerConnectedCells (cell e) = Some outer →
  previous_round this i h =
    Some (tt, <[fresh (dom h) := OArray (array_push empty_array (previous_cell this e i))]>
                (slot_store h outer o i)).
Proof.
  intros Hc. unfold previous_round, new_array.
  rewrite (bind_Some _ _ _ _ _ (load_edge_Some _ _ _ He)).
  rewrite Hc. simpl array_of_field. rewrite bind_ret.
  rewrite (bind_Some _ _ _ _ _ (new_object_Some _ _)).
  rewrite (bind_Some _ _ _ _ _ (update_array_Some _ _ _ _ round_alloc)).
  fold (slot_store h outer o i).
  rewrite (bind_Some _ _ _ _ _ (load_edge_Some _ _ _ round_edge)).
  rewrite Hc. simpl array_of_field. rewrite bind_ret.
  rewrite (bind_Some _ _ _ _ _ (load_array_Some _ _ _ round_outer)).
  rewrite array_get_set. unfold previous_cell, push_onto.
  destruct (Z.of_nat i =? 0);
    by rewrite (update_array_Some _ _ _ _ round_inner).
Qed.

End Round.

(** ** The two lookups *)

Lemma filled_start (h1 : heap) outer pick :
  h1 !! outer = Some (OArray empty_array) → filled h1 h1 outer pick 0.
Proof.
  intros Ho. split; first done. exists empty_array.
  split; first done. split.
  - intros k [v Hv]. simpl in Hv. by rewrite lookup_empty in Hv.
  - intros j Hj. lia.
Qed.

(** From the store [h1] at the start of the loop back to the store [h]
    of the call. *)
Lemma filled_built (h h' : heap) this e e1 pick (n : nat) :
  let outer := fresh (dom h) in
  let h1 : heap := <[this := OEdge e1]> (<[outer := OArray empty_array]> h) in
  h !! this = Some (OEdge e) →
  filled h1 h' outer pick n →
  ∃ o, h' !! this = Some (OEdge e1) ∧ built h h' this n pick outer o.
Proof.
  intros outer h1 He [Hfr (o & Ho & Hkeys & Hslots)].
  assert (outer ≠ this) as Hne by (by eapply fresh_ne').
  exists o. split.
  { rewrite Hfr; unfold h1; rewrite ?lookup_insert_eq; [done|done|by apply not_eq_sym]. }
  split.
  - apply fresh_not_in.
  - done.
  - done.
  - intros j Hj. destruct (Hslots j Hj) as (r & Hr & Hr1 & Hr2).
    exists r. split; first done. split; last done.
    unfold h1 in Hr1.
    apply lookup_insert_None in Hr1 as [Hr1 _].
    by apply lookup_insert_None in Hr1 as [Hr1 _].
  - intros l Hl Hlt.
    assert (l ≠ outer).
    { intros ->. destruct Hl as [x Hx]. unfold outer in Hx. by rewrite fresh_not_in in Hx. }
    assert (h1 !! l = h !! l) as Heq by (unfold h1; by rewrite !lookup_insert_ne).
    rewrite <- Heq. apply Hfr; last done. by rewrite Heq.
Qed.

Lemma getNextLayerConnectedCells_cached this e outer o layer (h : heap) :
  h !! this = Some (OEdge e) →
  nextLayerConnectedCells (cell e) = Some outer →
  h !! outer = Some (OArray o) →
  getNextLayerConnectedCells this layer h =
    Some (array_get o (layer - minRank (cell e) - 1), h).
Proof.
  intros He Hc Ho. unfold getNextLayerConnectedCells.
  rewrite (bind_Some _ _ _ _ _ (load_edge_Some _ _ _ He)).
  rewrite Hc, bind_ret.
  rewrite (bind_Some _ _ _ _ _ (load_edge_Some _ _ _ He)).
  rewrite Hc. simpl array_of_field. rewrite bind_ret.
  by rewrite (bind_Some _ _ _ _ _ (load_array_Some _ _ _ Ho)).
Qed.

Lemma getPreviousLayerConnectedCells_cached this e outer o layer (h : heap) :
  h !! this = Some (OEdge e) →
  previousLayerConnectedCells (cell e) = Some outer →
  h !! outer = Some (OArray o) →
  getPreviousLayerConnectedCells this layer h =
    Some (array_get o (layer - minRank (cell e) - 1), h).
Proof.
  intros He Hc Ho. unfold getPreviousLayerConnectedCells.
  rewrite (bind_Some _ _ _ _ _ (load_edge_Some _ _ _ He)).
  rewrite Hc, bind_ret.
  rewrite (bind_Some _ _ _ _ _ (load_edge_Some _ _ _ He)).
  rewrite Hc. simpl array_of_field. rewrite bind_ret.
  by rewrite (bind_Some _ _ _ _ _ (load_array_Some _ _ _ Ho)).
Qed.

(** The first call builds the cache, one slot for each slot of [temp]. *)
Lemma getNextLayerConnectedCells_builds this e t layer (h : heap) :
  h !! this = Some (OEdge e) →
  nextLayerConnectedCells (cell e) = None →
  h !! temp (cell e) = Some (OArray t) →
  ∃ h' outer o,
    getNextLayerConnectedCells this layer h =
      Some (array_get o (layer - minRank (cell e) - 1), h') ∧
    h' !! this = Some (OEdge (set_nextLayerConnectedCells (Some outer) e)) ∧
    built h h' this (len t) (next_cell this e t) outer o.
Proof.
  intros He Hc Ht.
  set (outer := fresh (dom h)).
  set (e1 := set_nextLayerConnectedCells (Some outer) e).
  set (h1 := <[this := OEdge e1]> (<[outer := OArray empty_array]> h) : heap).
  assert (outer ≠ this) as Hne1 by (by eapply fresh_ne').
  assert (outer ≠ temp (cell e)) as Hne2 by (by eapply fresh_ne').
  assert (temp (cell e) ≠ this) as Hne3 by (intros Heq; congruence).
  assert (h1 !! this = Some (OEdge e1)) as He1 by (unfold h1; by rewrite lookup_insert_eq).
  assert (h1 !! temp (cell e) = Some (OArray t)) as Ht1
    by (unfold h1; by rewrite !lookup_insert_ne).
  assert (h1 !! outer = Some (OArray empty_array)) as Ho1
    by (unfold h1; by rewrite lookup_insert_ne, lookup_insert_eq).
  destruct (for_loop_invariant (λ i s, filled h1 s outer (next_cell this e t) i)
              (below_temp_length this) (next_round this) (len t))
    with (k := len t) (i := 0%nat) (s := h1) (fuel := S (len t))
    as (h' & Hloop & Hfilled).
  - intros i s HI. apply below_temp_length_Some with (e := e1).
    + by eapply filled_lookup.
    + by eapply filled_lookup.
  - intros i s Hi HI. pose proof HI as [_ (o & Ho & _)].
    eexists. split.
    + apply next_round_Some with (e := e1) (t := t) (o := o); try done.
      * by eapply filled_lookup.
      * by eapply filled_lookup.
    + by apply filled_step.
  - lia.
  - lia.
  - by apply filled_start.
  - destruct (filled_built h h' this e e1 (next_cell this e t) (len t) He Hfilled)
      as (o & He' & Hb).
    exists h', outer, o. split; last done.
    unfold getNextLayerConnectedCells.
    rewrite (bind_Some _ _ _ _ _ (load_edge_Some _ _ _ He)).
    rewrite Hc.
    erewrite bind_Some; last first.
    { unfold new_array. rewrite (bind_Some _ _ _ _ _ (new_object_Some _ _)).
      erewrite bind_Some; last first.
      { apply update_edge_Some. rewrite lookup_insert_ne; [exact He|done]. }
      erewrite bind_Some; last first.
      { apply load_array_Some. rewrite !lookup_insert_ne; [exact Ht|done..]. }
      exact Hloop. }
    rewrite (bind_Some _ _ _ _ _ (load_edge_Some _ _ _ He')).
    simpl array_of_field. rewrite bind_ret.
    by rewrite (bind_Some _ _ _ _ _ (load_array_Some _ _ _ (built_outer _ _ _ _ _ _ _ Hb))).
Qed.

Lemma getPreviousLayerConnectedCells_builds this e t layer (h : heap) :
  h !! this = Some (OEdge e) →
  previousLayerConnectedCells (cell e) = None →
  h !! temp (cell e) = Some (OArray t) →
  ∃ h' outer o,
    getPreviousLayerConnectedCells this layer h =
      Some (array_get o (layer - minRank (cell e) - 1), h') ∧
    h' !! this = Some (OEdge (set_previousLayerConnectedCells (Some outer) e)) ∧
    built h h' this (len t) (previous_cell this e) outer o.
Proof.
  intros He Hc Ht.
  set (outer := fresh (dom h)).
  set (e1 := set_previousLayerConnectedCells (Some outer) e).
  set (h1 := <[this := OEdge e1]> (<[outer := OArray empty_array]> h) : heap).
  assert (outer ≠ this) as Hne1 by (by eapply fresh_ne').
  assert (outer ≠ temp (cell e)) as Hne2 by (by eapply fresh_ne').
  assert (temp (cell e) ≠ this) as Hne3 by (intros Heq; congruence).
  assert (h1 !! this = Some (OEdge e1)) as He1 by (unfold h1; by rewrite lookup_insert_eq).
  assert (h1 !! temp (cell e) = Some (OArray t)) as Ht1
    by (unfold h1; by rewrite !lookup_insert_ne).
  assert (h1 !! outer = Some (OArray empty_array)) as Ho1
    by (unfold h1; by rewrite lookup_insert_ne, lookup_insert_eq).
  destruct (for_loop_invariant (λ i s, filled h1 s outer (previous_cell this e) i)
              (below_temp_length this) (previous_round this) (len t))
    with (k := len t) (i := 0%nat) (s := h1) (fuel := S (len t))
    as (h' & Hloop & Hfilled).
  - intros i s HI. apply below_temp_length_Some with (e := e1).
    + by eapply filled_lookup.
    + by eapply filled_lookup.
  - intros i s Hi HI. pose proof HI as [_ (o & Ho & _)].
    eexists. split.
    + apply previous_round_Some with (e := e1) (o := o); try done.
      by eapply filled_lookup.
    + by apply filled_step.
  - lia.
  - lia.
  - by apply filled_start.
  - destruct (filled_built h h' this e e1 (previous_cell this e) (len t) He Hfilled)
      as (o & He' & Hb).
    exists h', outer, o. split; last done.
    unfold getPreviousLayerConnectedCells.
    rewrite (bind_Some _ _ _ _ _ (load_edge_Some _ _ _ He)).
    rewrite Hc.
    erewrite bind_Some; last first.
    { unfold new_array. rewrite (bind_Some _ _ _ _ _ (new_object_Some _ _)).
      erewrite bind_Some; last first.
      { apply update_edge_Some. rewrite lookup_insert_ne; [exact He|done]. }
      erewrite bind_Some; last first.
      { apply load_array_Some. rewrite !lookup_insert_ne; [exact Ht|done..]. }
      exact Hloop. }
    rewrite (bind_Some _ _ _ _ _ (load_edge_Some _ _ _ He')).
    simpl array_of_field. rewrite bind_ret.
    by rewrite (bind_Some _ _ _ _ _ (load_array_Some _ _ _ (built_outer _ _ _ _ _ _ _ Hb))).
Qed.

(** Reading a built cache. *)
Lemma built_get (h h' : heap) this n pick outer o (j : nat) :
  built h h' this n pick outer o → (j < n)%nat →
  ∃ r, array_get o (Z.of_nat j) = VRef r ∧ h !! r = None ∧
       h' !! r = Some (OArray (array_of_list [pick j])).
Proof.
  intros Hb Hj. destruct (built_slots _ _ _ _ _ _ _ Hb j Hj) as (r & Hr & Hr1 & Hr2).
  exists r. unfold array_get. by rewrite Hr.
Qed.

Lemma built_get_outside (h h' : heap) this n pick outer o k :
  built h h' this n pick outer o → ¬ (0 ≤ k < Z.of_nat n) →
  array_get o k = VUndefined.
Proof.
  intros Hb Hk. unfold array_get.
  destruct (props o !! k) as [v|] eqn:E; last done.
  destruct Hk. eapply built_keys; eauto.
Qed.

(** C1: on an edge whose cache is not built yet and whose [temp] has
    [len t] slots, one for each rank [minRank + 1 .. minRank + len t],
    [getNextLayerConnectedCells(layer)] returns for a [layer] in that
    range a newly created one-element array: [[source]] for the topmost
    rank [minRank + len t], and [[this]] for every other rank.  Only the
    length of [temp] and [minRank] enter; [maxRank] is not read. *)
Theorem getNextLayerConnectedCells_first_call this e t layer (h : heap) :
  h !! this = Some (OEdge e) →
  nextLayerConnectedCells (cell e) = None →
  h !! temp (cell e) = Some (OArray t) →
  minRank (cell e) + 1 ≤ layer ≤ minRank (cell e) + Z.of_nat (len t) →
  ∃ r h', getNextLayerConnectedCells this layer h = Some (VRef r, h') ∧
    h !! r = None ∧
    h' !! r = Some (OArray (array_of_list
                [if decide (layer = minRank (cell e) + Z.of_nat (len t))
                 then source e else VRef this])).
Proof.
  intros He Hc Ht Hl.
  destruct (getNextLayerConnectedCells_builds this e t layer h He Hc Ht)
    as (h' & outer & o & Hrun & _ & Hb).
  destruct (built_get _ _ _ _ _ _ _ (Z.to_nat (layer - minRank (cell e) - 1)) Hb)
    as (r & Hr & Hr1 & Hr2); first lia.
  rewrite Z2Nat.id in Hr by lia.
  exists r, h'. rewrite Hrun, Hr. split; first done. split; first done.
  rewrite Hr2. unfold next_cell. rewrite Z2Nat.id by lia.
  case_decide; [rewrite (proj2 (Z.eqb_eq _ _))|rewrite (proj2 (Z.eqb_neq _ _))]; (done || lia).
Qed.

(** C2: on an edge whose cache is not built yet and whose [temp] has
    [len t] slots, [getPreviousLayerConnectedCells(layer)] returns for a
    [layer] in [minRank + 1 .. minRank + len t] a newly created
    one-element array: [[target]] for the bottom rank [minRank + 1], and
    [[this]] for every other rank. *)
Theorem getPreviousLayerConnectedCells_first_call this e t layer (h : heap) :
  h !! this = Some (OEdge e) →
  previousLayerConnectedCells (cell e) = None →
  h !! temp (cell e) = Some (OArray t) →
  minRank (cell e) + 1 ≤ layer ≤ minRank (cell e) + Z.of_nat (len t) →
  ∃ r h', getPreviousLayerConnectedCells this layer h = Some (VRef r, h') ∧
    h !! r = None ∧
    h' !! r = Some (OArray (array_of_list
                [if decide (layer = minRank (cell e) + 1)
                 then target e else VRef this])).
Proof.
  intros He Hc Ht Hl.
  destruct (getPreviousLayerConnectedCells_builds this e t layer h He Hc Ht)
    as (h' & outer & o & Hrun & _ & Hb).
  destruct (built_get _ _ _ _ _ _ _ (Z.to_nat (layer - minRank (cell e) - 1)) Hb)
    as (r & Hr & Hr1 & Hr2); first lia.
  rewrite Z2Nat.id in Hr by lia.
  exists r, h'. rewrite Hrun, Hr. split; first done. split; first done.
  rewrite Hr2. unfold previous_cell. rewrite Z2Nat.id by lia.
  case_decide; [rewrite (proj2 (Z.eqb_eq _ _))|rewrite (proj2 (Z.eqb_neq _ _))]; (done || lia).
Qed.

(** ** The cache and invert *)

(** C7: [invert()] leaves a cache alone.  On an edge that has its
    next-layer cache, however the cache got there and whatever else has
    happened since, [invert()] keeps the cache field and every object
    other than the edge, and [getNextLayerConnectedCells] returns after
    the inversion, for every layer, what it returned before, without
    rebuilding anything; the same holds for the previous-layer cache.
    In particular, when a first [getNextLayerConnectedCells] has built
    the cache, the array returned for the topmost rank after the
    inversion is the one returned before: it still holds the object that
    was [source] before the inversion and that is [target] now; likewise
    [getPreviousLayerConnectedCells] at the bottom rank still returns the
    former [target], which is [source] now.  Each part needs its own
    cache only. *)
Theorem cache_survives_invert this e (h : heap) :
  h !! this = Some (OEdge e) →
  (∀ outer o,
     nextLayerConnectedCells (cell e) = Some outer →
     h !! outer = Some (OArray o) →
     ∃ h2 e2,
       invert this h = Some (tt, h2) ∧
       h2 !! this = Some (OEdge e2) ∧
       source e2 = target e ∧ target e2 = source e ∧
       nextLayerConnectedCells (cell e2) = Some outer ∧
       (∀ l, l ≠ this → h2 !! l = h !! l) ∧
       (∀ layer, ∃ v, getNextLayerConnectedCells this layer h = Some (v, h) ∧
                      getNextLayerConnectedCells this layer h2 = Some (v, h2))) ∧
  (∀ outer o,
     previousLayerConnectedCells (cell e) = Some outer →
     h !! outer = Some (OArray o) →
     ∃ h2 e2,
       invert this h = Some (tt, h2) ∧
       h2 !! this = Some (OEdge e2) ∧
       source e2 = target e ∧ target e2 = source e ∧
       previousLayerConnectedCells (cell e2) = Some outer ∧
       (∀ l, l ≠ this → h2 !! l = h !! l) ∧
       (∀ layer, ∃ v, getPreviousLayerConnectedCells this layer h = Some (v, h) ∧
                      getPreviousLayerConnectedCells this layer h2 = Some (v, h2))) ∧
  (∀ t layer0,
     h !! temp (cell e) = Some (OArray t) →
     (0 < len t)%nat →
     nextLayerConnectedCells (cell e) = None →
     ∃ v0 h1 h2 e2 r,
       getNextLayerConnectedCells this layer0 h = Some (v0, h1) ∧
       invert this h1 = Some (tt, h2) ∧
       h2 !! this = Some (OEdge e2) ∧
       source e2 = target e ∧ target e2 = source e ∧
       (∀ layer v, getNextLayerConnectedCells this layer h1 = Some (v, h1) →
                   getNextLayerConnectedCells this layer h2 = Some (v, h2)) ∧
       getNextLayerConnectedCells this (minRank (cell e) + Z.of_nat (len t)) h1
         = Some (VRef r, h1) ∧
       getNextLayerConnectedCells this (minRank (cell e) + Z.of_nat (len t)) h2
         = Some (VRef r, h2) ∧
       h2 !! r = Some (OArray (array_of_list [target e2]))) ∧
  (∀ t layer0,
     h !! temp (cell e) = Some (OArray t) →
     (0 < len t)%nat →
     previousLayerConnectedCells (cell e) = None →
     ∃ v0 h1 h2 e2 r,
       getPreviousLayerConnectedCells this layer0 h = Some (v0, h1) ∧
       invert this h1 = Some (tt, h2) ∧
       h2 !! this = Some (OEdge e2) ∧
       source e2 = target e ∧ target e2 = source e ∧
       (∀ layer v, getPreviousLayerConnectedCells this layer h1 = Some (v, h1) →
                   getPreviousLayerConnectedCells this layer h2 = Some (v, h2)) ∧
       getPreviousLayerConnectedCells this (minRank (cell e) + 1) h1 = Some (VRef r, h1) ∧
       getPreviousLayerConnectedCells this (minRank (cell e) + 1) h2 = Some (VRef r, h2) ∧
       h2 !! r = Some (OArray (array_of_list [source e2]))).
Proof.
  intros He. split; [|split; [|split]].
  - intros outer o Hc Ho.
    assert (outer ≠ this) as Hne by (intros ->; congruence).
    eexists _, _. split; first exact (invert_Some _ _ _ He).
    rewrite lookup_insert_eq. split; first done. simpl.
    split; first done. split; first done. split; first done.
    split. { intros l Hl. by rewrite lookup_insert_ne. }
    intros layer. exists (array_get o (layer - minRank (cell e) - 1)).
    split; first exact (getNextLayerConnectedCells_cached _ _ outer o _ _ He Hc Ho).
    match goal with |- context [<[this := OEdge ?x]> h] => set (e2 := x) end.
    rewrite (getNextLayerConnectedCells_cached _ e2 outer o); first done.
    + by rewrite lookup_insert_eq.
    + done.
    + by rewrite lookup_insert_ne.
  - intros outer o Hc Ho.
    assert (outer ≠ this) as Hne by (intros ->; congruence).
    eexists _, _. split; first exact (invert_Some _ _ _ He).
    rewrite lookup_insert_eq. split; first done. simpl.
    split; first done. split; first done. split; first done.
    split. { intros l Hl. by rewrite lookup_insert_ne. }
    intros layer. exists (array_get o (layer - minRank (cell e) - 1)).
    split; first exact (getPreviousLayerConnectedCells_cached _ _ outer o _ _ He Hc Ho).
    match goal with |- context [<[this := OEdge ?x]> h] => set (e2 := x) end.
    rewrite (getPreviousLayerConnectedCells_cached _ e2 outer o); first done.
    + by rewrite lookup_insert_eq.
    + done.
    + by rewrite lookup_insert_ne.
  - intros t layer0 Ht Hlen Hn.
    destruct (getNextLayerConnectedCells_builds this e t layer0 h He Hn Ht)
      as (h1 & outer & o & Hrun & He1 & Hb).
    pose proof (invert_Some _ _ _ He1) as Hinv.
    destruct (built_get _ _ _ _ _ _ _ (len t - 1)%nat Hb) as (r & Hr & Hr1 & Hr2); first lia.
    assert (this ≠ outer) as Hne1.
    { intros ->. rewrite (built_outer _ _ _ _ _ _ _ Hb) in He1. congruence. }
    assert (this ≠ r) as Hne2 by (intros ->; congruence).
    eexists _, h1, _, _, r. split; first exact Hrun. split; first exact Hinv.
    rewrite lookup_insert_eq. split; first done. simpl.
    split; first done. split; first done.
    assert (∀ layer, getNextLayerConnectedCells this layer h1 =
              Some (array_get o (layer - minRank (cell e) - 1), h1)) as Hbefore.
    { intros layer.
      by rewrite (getNextLayerConnectedCells_cached _ _ outer o _ _ He1 eq_refl
                    (built_outer _ _ _ _ _ _ _ Hb)). }
    match goal with |- context [<[this := OEdge ?x]> h1] => set (e2 := x) end.
    assert (∀ layer, getNextLayerConnectedCells this layer (<[this := OEdge e2]> h1) =
              Some (array_get o (layer - minRank (cell e) - 1), <[this := OEdge e2]> h1))
      as Hafter.
    { intros layer.
      rewrite (getNextLayerConnectedCells_cached _ e2 outer o); first done.
      - by rewrite lookup_insert_eq.
      - done.
      - rewrite lookup_insert_ne by done. exact (built_outer _ _ _ _ _ _ _ Hb). }
    split. { intros layer v. rewrite Hbefore, Hafter. by intros [= <-]. }
    replace (minRank (cell e) + Z.of_nat (len t) - minRank (cell e) - 1)
      with (Z.of_nat (len t - 1)) in * by lia.
    rewrite Hbefore, Hafter.
    replace (minRank (cell e) + Z.of_nat (len t) - minRank (cell e) - 1)
      with (Z.of_nat (len t - 1)) by lia.
    rewrite Hr. split; first done. split; first done.
    rewrite lookup_insert_ne by done. rewrite Hr2. unfold next_cell.
    rewrite (proj2 (Z.eqb_eq _ _)); [done|lia].
  - intros t layer0 Ht Hlen Hp.
    destruct (getPreviousLayerConnectedCells_builds this e t layer0 h He Hp Ht)
      as (h1 & outer & o & Hrun & He1 & Hb).
    pose proof (invert_Some _ _ _ He1) as Hinv.
    destruct (built_get _ _ _ _ _ _ _ 0%nat Hb) as (r & Hr & Hr1 & Hr2); first lia.
    assert (this ≠ outer) as Hne1.
    { intros ->. rewrite (built_outer _ _ _ _ _ _ _ Hb) in He1. congruence. }
    assert (this ≠ r) as Hne2 by (intros ->; congruence).
    eexists _, h1, _, _, r. split; first exact Hrun. split; first exact Hinv.
    rewrite lookup_insert_eq. split; first done. simpl.
    split; first done. split; first done.
    assert (∀ layer, getPreviousLayerConnectedCells this layer h1 =
              Some (array_get o (layer - minRank (cell e) - 1), h1)) as Hbefore.
    { intros layer.
      by rewrite (getPreviousLayerConnectedCells_cached _ _ outer o _ _ He1 eq_refl
                    (built_outer _ _ _ _ _ _ _ Hb)). }
    match goal with |- context [<[this := OEdge ?x]> h1] => set (e2 := x) end.
    assert (∀ layer, getPreviousLayerConnectedCells this layer (<[this := OEdge e2]> h1) =
              Some (array_get o (layer - minRank (cell e) - 1), <[this := OEdge e2]> h1))
      as Hafter.
    { intros layer.
      rewrite (getPreviousLayerConnectedCells_cached _ e2 outer o); first done.
      - by rewrite lookup_insert_eq.
      - done.
      - rewrite lookup_insert_ne by done. exact (built_outer _ _ _ _ _ _ _ Hb). }
    split. { intros layer v. rewrite Hbefore, Hafter. by intros [= <-]. }
    rewrite Hbefore, Hafter.
    replace (minRank (cell e) + 1 - minRank (cell e) - 1) with (Z.of_nat 0) by lia.
    rewrite Hr. split; first done. split; first done.
    by rewrite lookup_insert_ne.
Qed.

(** ** Reading outside the occupied ranks *)

Lemma in_bounds_empty : in_bounds empty_array.
Proof. intros k [v Hv]. simpl in Hv. by rewrite lookup_empty in Hv. Qed.

Lemma in_bounds_push a v : in_bounds a → in_bounds (array_push a v).
Proof.
  intros Ha k. unfold array_push; simpl.
  destruct (decide (k = Z.of_nat (len a))) as [->|Hk]; first lia.
  rewrite lookup_insert_ne by done. intros Hs%Ha. lia.
Qed.

Lemma foldl_push_in_bounds vs a : in_bounds a → in_bounds (foldl array_push a vs).
Proof.
  revert a. induction vs as [|v vs IH]; intros a Ha; simpl; first done.
  by apply IH, in_bounds_push.
Qed.

Lemma in_bounds_array_of_list vs : in_bounds (array_of_list vs).
Proof. apply foldl_push_in_bounds, in_bounds_empty. Qed.

Lemma array_get_outside a k :
  in_bounds a → ¬ (0 ≤ k < Z.of_nat (len a)) → array_get a k = VUndefined.
Proof.
  intros Ha Hk. unfold array_get.
  destruct (props a !! k) as [v|] eqn:E; last done.
  destruct Hk. apply Ha. eauto.
Qed.

(** C9, as the code has it: for a [layer] outside
    [minRank + 1 .. minRank + temp.length], and for [layer = minRank] in
    particular, [getGeneralPurposeVariable(layer)] returns [undefined]
    without an error and without changing the store, provided [temp]
    holds values at its indices [0 .. length - 1] only, whatever the
    state of the caches; and once [getNextLayerConnectedCells] has built
    its cache, by a first call for whatever layer,
    [getNextLayerConnectedCells(layer)] returns [undefined] as well, as
    does a first call for such a [layer] itself. *)
Theorem out_of_range_reads_undefined this e t layer layer0 (h : heap) :
  h !! this = Some (OEdge e) →
  h !! temp (cell e) = Some (OArray t) →
  ¬ (minRank (cell e) + 1 ≤ layer ≤ minRank (cell e) + Z.of_nat (len t)) →
  (in_bounds t →
     getGeneralPurposeVariable this layer h = Some (VUndefined, h) ∧
     getGeneralPurposeVariable this (minRank (cell e)) h = Some (VUndefined, h)) ∧
  (nextLayerConnectedCells (cell e) = None →
     (∃ v0 h1, getNextLayerConnectedCells this layer0 h = Some (v0, h1) ∧
               getNextLayerConnectedCells this layer h1 = Some (VUndefined, h1)) ∧
     (∃ h1, getNextLayerConnectedCells this layer h = Some (VUndefined, h1))).
Proof.
  intros He Ht Hl. split.
  - intros Hin.
    rewrite !(getGeneralPurposeVariable_Some _ _ _ _ _ He Ht).
    rewrite !array_get_outside; [done|done|lia|done|lia].
  - intros Hc. split.
    + destruct (getNextLayerConnectedCells_builds this e t layer0 h He Hc Ht)
        as (h1 & outer & o & Hrun & He1 & Hb).
      eexists _, h1. split; first exact Hrun.
      rewrite (getNextLayerConnectedCells_cached _ _ outer o _ _ He1 eq_refl
                 (built_outer _ _ _ _ _ _ _ Hb)).
      simpl. rewrite (built_get_outside _ _ _ _ _ _ _ _ Hb); [done|lia].
    + destruct (getNextLayerConnectedCells_builds this e t layer h He Hc Ht)
        as (h1 & outer & o & Hrun & He1 & Hb).
      exists h1. rewrite Hrun.
      rewrite (built_get_outside _ _ _ _ _ _ _ _ Hb); [done|lia].
Qed.

(** ** Arrays and lists *)

Lemma array_of_list_snoc vs v :
  array_of_list (vs ++ [v]) = array_push (array_of_list vs) v.
Proof. unfold array_of_list. by rewrite foldl_app. Qed.

Lemma len_array_of_list vs : len (array_of_list vs) = length vs.
Proof.
  induction vs as [|v vs IH] using rev_ind; first done.
  rewrite array_of_list_snoc, length_app. simpl. lia.
Qed.

Lemma array_get_array_of_list vs (i : nat) v :
  vs !! i = Some v → array_get (array_of_list vs) (Z.of_nat i) = v.
Proof.
  revert i v. induction vs as [|w vs IH] using rev_ind; intros i v Hi; first done.
  rewrite array_of_list_snoc. unfold array_get, array_push; simpl.
  rewrite len_array_of_list.
  destruct (decide (i = length vs)) as [->|Hne].
  - rewrite lookup_insert_eq. rewrite list_lookup_middle in Hi by done. by injection Hi.
  - rewrite lookup_insert_ne by lia.
    apply IH. rewrite lookup_app_l in Hi; first done.
    apply lookup_lt_Some in Hi. rewrite length_app in Hi. simpl in Hi. lia.
Qed.

Lemma length_array_elems a : length (array_elems a) = len a.
Proof. unfold array_elems. by rewrite length_map, length_seq. Qed.

Lemma array_elems_lookup a (i : nat) :
  (i < len a)%nat → array_elems a !! i = Some (array_get a (Z.of_nat i)).
Proof.
  intros Hi. unfold array_elems.
  change (map ?f ?l) with (f <$> l).
  rewrite list_lookup_fmap, lookup_seq_lt by done. done.
Qed.

(** ** The constructor *)

Section ConstructorProofs.

Variable IdState : Type.
Variable mxObjectIdentity_get : value → IdState → value * IdState.

Local Abbreviation identities := (identities IdState mxObjectIdentity_get).
Local Abbreviation constructor := (constructor IdState mxObjectIdentity_get).

Lemma on_heap_Some {A} (m : M A) (h h' : heap) (s : IdState) a :
  m h = Some (a, h') → on_heap IdState m (h, s) = Some (a, (h', s)).
Proof. unfold on_heap. simpl. by intros ->. Qed.

Lemma identities_snoc objs obj s :
  identities (objs ++ [obj]) s =
    ((identities objs s).1 ++ [(mxObjectIdentity_get obj (identities objs s).2).1],
     (mxObjectIdentity_get obj (identities objs s).2).2).
Proof.
  revert s. induction objs as [|x objs IH]; intros s; simpl; first done.
  by rewrite IH.
Qed.

Lemma identities_length objs s : length (identities objs s).1 = length objs.
Proof.
  revert s. induction objs as [|x objs IH]; intros s; simpl; first done.
  by rewrite IH.
Qed.

Lemma identities_lookup objs (i : nat) obj s :
  objs !! i = Some obj →
  (identities objs s).1 !! i =
    Some (mxObjectIdentity_get obj (identities (take i objs) s).2).1.
Proof.
  revert i s. induction objs as [|x objs IH]; intros i s Hi; first done.
  destruct i as [|i]; simpl in *.
  - by injection Hi as ->.
  - by apply IH.
Qed.

Lemma constructor_Some super_ edges_ a (h : heap) (s : IdState) :
  h !! edges_ = Some (OArray a) →
  let tokens := identities (array_elems a) s in
  ∃ this idl h',
    constructor super_ edges_ (h, s) = Some (this, (h', tokens.2)) ∧
    h !! this = None ∧ h !! idl = None ∧ this ≠ idl ∧
    h' !! this = Some (OEdge {| cell := super_; edges := Some edges_; ids := Some idl;
                                source := VNull; target := VNull; isReversed := false |}) ∧
    h' !! idl = Some (OArray (array_of_list tokens.1)) ∧
    (∀ l, l ≠ this → l ≠ idl → h' !! l = h !! l).
Proof.
  intros Ha tokens.
  set (e0 := {| cell := super_; edges := None; ids := None;
                source := VNull; target := VNull; isReversed := false |}).
  set (this := fresh (dom h)).
  set (h1 := <[this := OEdge (set_edges (Some edges_) e0)]> (<[this := OEdge e0]> h) : heap).
  set (idl := fresh (dom h1)).
  set (e2 := set_ids (Some idl) (set_edges (Some edges_) e0)).
  set (hs := <[this := OEdge e2]> (<[idl := OArray empty_array]> h1) : heap).
  assert (this ≠ edges_) as Hne1 by (by eapply fresh_ne').
  assert (h1 !! this = Some (OEdge (set_edges (Some edges_) e0))) as H1this
    by (unfold h1; by rewrite lookup_insert_eq).
  assert (h1 !! edges_ = Some (OArray a)) as H1edges
    by (unfold h1; by rewrite !lookup_insert_ne).
  assert (idl ≠ this) as Hne2 by (by eapply fresh_ne').
  assert (idl ≠ edges_) as Hne3 by (by eapply fresh_ne').
  assert (hs !! this = Some (OEdge e2)) as Hsthis
    by (unfold hs; by rewrite lookup_insert_eq).
  assert (hs !! edges_ = Some (OArray a)) as Hsedges
    by (unfold hs; by rewrite !lookup_insert_ne).
  assert (hs !! idl = Some (OArray empty_array)) as Hsidl
    by (unfold hs; rewrite lookup_insert_ne by done; by rewrite lookup_insert_eq).
  destruct (for_loop_invariant (collecting IdState mxObjectIdentity_get hs s a idl)
              (λ i, on_heap IdState (below_length edges_ i))
              (λ i,
                 e <- on_heap IdState (load_edge this) ;;
                 l <- on_heap IdState (array_of_field (ids e)) ;;
                 a <- on_heap IdState (load_array edges_) ;;
                 token <- identity_of IdState mxObjectIdentity_get
                            (array_get a (Z.of_nat i)) ;;
                 on_heap IdState (update_array l (λ b, array_push b token)))
              (len a))
    with (k := len a) (i := 0%nat) (s := (hs, s)) (fuel := S (len a))
    as ([h' s'] & Hloop & Hfr & Hidl & Hs').
  - intros i [hi si] (Hfr & _ & _). simpl in Hfr.
    apply on_heap_Some. unfold below_length.
    by rewrite (bind_Some _ _ _ _ _ (load_array_Some _ _ _
                  (eq_trans (Hfr _ (not_eq_sym Hne3)) Hsedges))).
  - intros i [hi si] Hi (Hfr & Hidl & Hsi). simpl in Hfr, Hidl, Hsi.
    pose proof (eq_trans (Hfr _ (not_eq_sym Hne2)) Hsthis) as Hithis.
    pose proof (eq_trans (Hfr _ (not_eq_sym Hne3)) Hsedges) as Hiedges.
    eexists (_, _). split.
    + rewrite (bind_Some _ _ _ _ _ (on_heap_Some _ _ _ _ _ (load_edge_Some _ _ _ Hithis))).
      simpl array_of_field.
      rewrite (bind_Some _ _ _ _ _ (on_heap_Some (ret idl) hi hi si idl eq_refl)).
      rewrite (bind_Some _ _ _ _ _ (on_heap_Some _ _ _ _ _ (load_array_Some _ _ _ Hiedges))).
      unfold bind at 1. unfold identity_of at 1. simpl.
      by rewrite (on_heap_Some _ _ _ _ _ (update_array_Some _ _ _ _ Hidl)).
    + unfold collecting. rewrite (take_S_r _ _ _ (array_elems_lookup a i Hi)).
      rewrite identities_snoc. simpl. split; [|split].
      * intros l Hl. rewrite lookup_insert_ne by done. by apply Hfr.
      * by rewrite lookup_insert_eq, array_of_list_snoc, Hsi.
      * by rewrite Hsi.
  - lia.
  - lia.
  - split; [done|split; done].
  - simpl in Hfr, Hidl, Hs'.
    rewrite take_ge in Hidl, Hs' by (rewrite length_array_elems; lia).
    exists this, idl, h'. split; [|split; [|split; [|split; [|split; [|split]]]]].
    + unfold constructor.
      rewrite (bind_Some _ _ _ _ _ (on_heap_Some _ _ _ _ _ (new_object_Some _ _))).
      erewrite bind_Some; last first.
      { apply on_heap_Some, update_edge_Some, lookup_insert_eq. }
      fold this e0 h1. unfold new_array.
      rewrite (bind_Some _ _ _ _ _ (on_heap_Some _ _ _ _ _ (new_object_Some _ _))).
      erewrite bind_Some; last first.
      { apply on_heap_Some, update_edge_Some. rewrite lookup_insert_ne by done.
        exact H1this. }
      fold idl e2 hs.
      rewrite (bind_Some _ _ _ _ _ (on_heap_Some _ _ _ _ _ (load_array_Some _ _ _ Hsedges))).
      rewrite (bind_Some _ _ _ _ _ Hloop).
      unfold ret, tokens. by rewrite Hs'.
    + apply fresh_not_in.
    + pose proof (fresh_not_in h1) as Hf. fold idl in Hf. unfold h1 in Hf.
      apply lookup_insert_None in Hf as [Hf _].
      by apply lookup_insert_None in Hf as [Hf _].
    + by apply not_eq_sym.
    + rewrite Hfr by (by apply not_eq_sym). exact Hsthis.
    + exact Hidl.
    + intros l Hl1 Hl2. rewrite Hfr by done.
      unfold hs, h1. by rewrite !lookup_insert_ne.
Qed.

End ConstructorProofs.

Lemma array_elems_of_list vs : array_elems (array_of_list vs) = vs.
Proof.
  apply list_eq. intros i.
  destruct (decide (i < length vs)%nat) as [Hi|Hi].
  - destruct (lookup_lt_is_Some_2 vs i Hi) as [v Hv].
    rewrite array_elems_lookup by (by rewrite len_array_of_list).
    by rewrite (array_get_array_of_list _ _ _ Hv).
  - rewrite !lookup_ge_None_2; first done; first lia.
    rewrite length_array_elems, len_array_of_list. lia.
Qed.

(** C10: [new mxGraphHierarchyEdge(edges)] creates an edge whose [edges]
    is the array it was given and whose [ids] is a new array of the same
    length; slot [i] of [ids] is the token that [mxObjectIdentity.get]
    handed out for [edges[i]], the calls being made in the order of the
    list.  This holds for the empty list as well. *)
Theorem constructor_records_identities
    (IdState : Type) (mxObjectIdentity_get : value → IdState → value * IdState)
    super_ edges_ a (h : heap) (s : IdState) :
  h !! edges_ = Some (OArray a) →
  ∃ this idl h' e' ia,
    constructor IdState mxObjectIdentity_get super_ edges_ (h, s) =
      Some (this, (h', (identities IdState mxObjectIdentity_get (array_elems a) s).2)) ∧
    h !! this = None ∧
    h' !! this = Some (OEdge e') ∧
    edges e' = Some edges_ ∧ ids e' = Some idl ∧
    h' !! edges_ = Some (OArray a) ∧
    h' !! idl = Some (OArray ia) ∧
    len ia = len a ∧
    array_elems ia = (identities IdState mxObjectIdentity_get (array_elems a) s).1 ∧
    (∀ i : nat, (i < len a)%nat →
       array_get ia (Z.of_nat i) =
         (mxObjectIdentity_get (array_get a (Z.of_nat i))
            (identities IdState mxObjectIdentity_get (take i (array_elems a)) s).2).1).
Proof.
  intros Ha.
  destruct (constructor_Some IdState mxObjectIdentity_get super_ edges_ a h s Ha)
    as (this & idl & h' & Hrun & Hthis & Hidl & Hne & Hthis' & Hidl' & Hfr).
  eexists this, idl, h', _, _. split; first exact Hrun.
  split; first done. split; first exact Hthis'. simpl.
  split; first done. split; first done.
  split. { rewrite Hfr; [done|intros ->; congruence..]. }
  split; first exact Hidl'.
  split. { by rewrite len_array_of_list, identities_length, length_array_elems. }
  split. { by rewrite array_elems_of_list. }
  intros i Hi. apply array_get_array_of_list.
  by apply identities_lookup, array_elems_lookup.
Qed.

(** * The theorems at work on the example store *)

(** With [minRank = 0], [maxRank = 2] and two scratch slots,
    [getNextLayerConnectedCells(1)] is [[this]] and
    [getNextLayerConnectedCells(2)] is [[source]]. *)
Lemma getNextLayerConnectedCells_first_call_witness :
  (∃ r h', getNextLayerConnectedCells 1%positive 1 example_store = Some (VRef r, h') ∧
           h' !! r = Some (OArray (array_of_list [VRef 1%positive]))) ∧
  (∃ r h', getNextLayerConnectedCells 1%positive 2 example_store = Some (VRef r, h') ∧
           h' !! r = Some (OArray (array_of_list [VRef 3%positive]))).
Proof.
  split.
  - destruct (getNextLayerConnectedCells_first_call 1%positive example_edge example_temp 1
                example_store) as (r & h' & H1 & _ & H2);
      [reflexivity | reflexivity | reflexivity | simpl; lia |].
    exists r, h'. split; [exact H1 | exact H2].
  - destruct (getNextLayerConnectedCells_first_call 1%positive example_edge example_temp 2
                example_store) as (r & h' & H1 & _ & H2);
      [reflexivity | reflexivity | reflexivity | simpl; lia |].
    exists r, h'. split; [exact H1 | exact H2].
Defined.

(** [getPreviousLayerConnectedCells(1)] is [[target]] and
    [getPreviousLayerConnectedCells(2)] is [[this]]. *)
Lemma getPreviousLayerConnectedCells_first_call_witness :
  (∃ r h', getPreviousLayerConnectedCells 1%positive 1 example_store = Some (VRef r, h') ∧
           h' !! r = Some (OArray (array_of_list [VRef 4%positive]))) ∧
  (∃ r h', getPreviousLayerConnectedCells 1%positive 2 example_store = Some (VRef r, h') ∧
           h' !! r = Some (OArray (array_of_list [VRef 1%positive]))).
Proof.
  split.
  - destruct (getPreviousLayerConnectedCells_first_call 1%positive example_edge example_temp 1
                example_store) as (r & h' & H1 & _ & H2);
      [reflexivity | reflexivity | reflexivity | simpl; lia |].
    exists r, h'. split; [exact H1 | exact H2].
  - destruct (getPreviousLayerConnectedCells_first_call 1%positive example_edge example_temp 2
                example_store) as (r & h' & H1 & _ & H2);
      [reflexivity | reflexivity | reflexivity | simpl; lia |].
    exists r, h'. split; [exact H1 | exact H2].
Defined.

Lemma invert_swaps_witness :
  ∃ h' e', invert 1%positive example_store = Some (tt, h') ∧
           h' !! 1%positive = Some (OEdge e') ∧
           source e' = VRef 4%positive ∧ target e' = VRef 3%positive ∧
           isReversed e' = true.
Proof.
  exact (invert_swaps 1%positive example_edge (VRef 3%positive) (VRef 4%positive) false
           example_store eq_refl eq_refl eq_refl eq_refl).
Defined.

Lemma invert_twice_witness :
  ∃ h' e', (invert 1%positive ;;; invert 1%positive) example_store = Some (tt, h') ∧
           h' !! 1%positive = Some (OEdge e') ∧
           source e' = VRef 3%positive ∧ target e' = VRef 4%positive ∧
           isReversed e' = false ∧ h' = example_store.
Proof. exact (invert_twice 1%positive example_edge example_store eq_refl). Defined.

Lemma invert_frame_witness :
  ∃ h' e', invert 1%positive example_store = Some (tt, h') ∧
           h' !! 1%positive = Some (OEdge e') ∧
           minRank (cell e') = 0 ∧ maxRank (cell e') = 2 ∧
           temp (cell e') = 2%positive ∧
           edges e' = Some 5%positive ∧ ids e' = Some 6%positive ∧
           nextLayerConnectedCells (cell e') = None ∧
           previousLayerConnectedCells (cell e') = None ∧
           h' !! 2%positive = Some (OArray example_temp) ∧
           h' !! 5%positive = Some (OArray example_edges).
Proof.
  destruct (invert_frame 1%positive example_edge example_store eq_refl)
    as (h' & e' & H1 & H2 & H3 & H4 & H5 & H6 & H7 & H8 & H9 & _ & _ & H10).
  exists h', e'. repeat (split; first assumption).
  split; apply H10; reflexivity.
Defined.


Lemma cache_survives_invert_witness :
  (∃ h1 h2 r,
     (v <- getNextLayerConnectedCells 1%positive 1 ;; ret tt) example_store = Some (tt, h1) ∧
     invert 1%positive h1 = Some (tt, h2) ∧
     getNextLayerConnectedCells 1%positive 2 h2 = Some (VRef r, h2) ∧
     h2 !! r = Some (OArray (array_of_list [VRef 3%positive]))) ∧
  (∃ h2, invert 1%positive cached_store = Some (tt, h2) ∧
         getNextLayerConnectedCells 1%positive 2 cached_store
           = Some (VRef 12%positive, cached_store) ∧
         getNextLayerConnectedCells 1%positive 2 h2 = Some (VRef 12%positive, h2)).
Proof.
  split.
  - destruct (cache_survives_invert 1%positive example_edge example_store eq_refl)
      as (_ & _ & H & _).
    destruct (H example_temp 1)
      as (v0 & h1 & h2 & e2 & r & H1 & H2 & H3 & H4 & H5 & _ & _ & H6 & H7);
      [reflexivity | simpl; lia | reflexivity |].
    exists h1, h2, r. split.
    { by rewrite (bind_Some _ _ _ _ _ H1). }
    split; first exact H2. split; first exact H6.
    rewrite H7, H5. reflexivity.
  - destruct (cache_survives_invert 1%positive cached_edge cached_store eq_refl)
      as (H & _).
    destruct (H 10%positive (array_of_list [VRef 11%positive; VRef 12%positive]))
      as (h2 & e2 & H1 & _ & _ & _ & _ & _ & H2); [reflexivity..|].
    destruct (H2 2) as (v & H3 & H4).
    assert (v = VRef 12%positive) as -> by (injection H3 as <-; reflexivity).
    exists h2. split; first exact H1. split; [exact H3|exact H4].
Defined.

Lemma getCoreCell_first_or_null_witness :
  getCoreCell 1%positive example_store = Some (VRef 7%positive, example_store) ∧
  getCoreCell 1%positive bare_store = Some (VNull, bare_store).
Proof.
  split.
  - destruct (getCoreCell_first_or_null 1%positive example_edge example_store eq_refl)
      as [_ H].
    destruct (H 5%positive example_edges eq_refl eq_refl) as [_ H'].
    apply H'. simpl. lia.
  - destruct (getCoreCell_first_or_null 1%positive bare_edge bare_store eq_refl)
      as [H _].
    apply H. reflexivity.
Defined.

(** C9 as stated fails: after [setGeneralPurposeVariable(0, 5)] on an
    edge with [minRank = 0] and an empty [temp], the array has the
    property [-1] and still has length 0, so rank 0 is outside the
    range, and yet [getGeneralPurposeVariable(0)] returns 5. *)
Lemma out_of_range_read_counterexample :
  setGeneralPurposeVariable 1%positive 0 (VNum 5) bare_store = Some (tt, stray_store) ∧
  getGeneralPurposeVariable 1%positive 0 stray_store = Some (VNum 5, stray_store) ∧
  ¬ (∀ this e t layer (h : heap),
       h !! this = Some (OEdge e) →
       h !! temp (cell e) = Some (OArray t) →
       ¬ (minRank (cell e) + 1 ≤ layer ≤ minRank (cell e) + Z.of_nat (len t)) →
       getGeneralPurposeVariable this layer h = Some (VUndefined, h)).
Proof.
  assert (stray_store !! 1%positive = Some (OEdge bare_edge)) as He by reflexivity.
  assert (stray_store !! temp (cell bare_edge) = Some (OArray stray_temp)) as Ht
    by reflexivity.
  split; [|split].
  - by rewrite (setGeneralPurposeVariable_Some 1%positive bare_edge empty_array 0 (VNum 5)
                  bare_store eq_refl eq_refl).
  - by rewrite (getGeneralPurposeVariable_Some _ _ _ 0 _ He Ht).
  - intros H. specialize (H 1%positive bare_edge stray_temp 0 stray_store He Ht).
    rewrite (getGeneralPurposeVariable_Some _ _ _ 0 _ He Ht) in H.
    assert (Some (array_get stray_temp (0 - minRank (cell bare_edge) - 1), stray_store)
            = Some (VUndefined, stray_store)) as Habs by (apply H; simpl; lia).
    discriminate Habs.
Qed.

Lemma out_of_range_reads_undefined_witness :
  getGeneralPurposeVariable 1%positive 3 example_store = Some (VUndefined, example_store) ∧
  getGeneralPurposeVariable 1%positive 0 example_store = Some (VUndefined, example_store) ∧
  getGeneralPurposeVariable 1%positive 3 cached_store = Some (VUndefined, cached_store) ∧
  (∃ v0 h1, getNextLayerConnectedCells 1%positive 1 example_store = Some (v0, h1) ∧
            getNextLayerConnectedCells 1%positive 3 h1 = Some (VUndefined, h1)).
Proof.
  destruct (out_of_range_reads_undefined 1%positive example_edge example_temp 3 1
              example_store) as (H1 & H2);
    [reflexivity | reflexivity | simpl; lia |].
  destruct (H1 (in_bounds_array_of_list _)) as [H3 H4].
  destruct (H2 eq_refl) as [H5 _].
  destruct (out_of_range_reads_undefined 1%positive cached_edge example_temp 3 1
              cached_store) as (H6 & _);
    [reflexivity | reflexivity | simpl; lia |].
  destruct (H6 (in_bounds_array_of_list _)) as [H7 _].
  split; first exact H3. split; first exact H4. split; first exact H7. exact H5.
Defined.

Lemma constructor_records_identities_witness :
  ∃ this idl h' e' ia,
    constructor nat counting_identity example_cell 5%positive (example_store, 7%nat) =
      Some (this, (h', 9%nat)) ∧
    h' !! this = Some (OEdge e') ∧
    edges e' = Some 5%positive ∧ ids e' = Some idl ∧
    h' !! idl = Some (OArray ia) ∧
    len ia = 2%nat ∧
    array_elems ia = [VNum 7; VNum 8].
Proof.
  destruct (constructor_records_identities nat counting_identity example_cell 5%positive
              example_edges example_store 7%nat eq_refl)
    as (this & idl & h' & e' & ia & H1 & _ & H2 & H3 & H4 & _ & H5 & H6 & H7 & _).
  exists this, idl, h', e', ia.
  split; first exact H1.
  repeat (split; first assumption). exact H7.
Defined.

(** * Further properties of the edge *)

(** ** The extent of a cache *)

Lemma apart_start (h1 : heap) outer :
  h1 !! outer = Some (OArray empty_array) → apart h1 outer 0.
Proof. intros Ho. exists empty_array. split; first done. split; first done. lia. Qed.

Lemma apart_step h1 h outer pick i o :
  filled h1 h outer pick i →
  apart h outer i →
  h !! outer = Some (OArray o) →
  apart (<[fresh (dom h) := OArray (array_push empty_array (pick i))]> (slot_store h outer o i))
    outer (S i).
Proof.
  intros [_ (o1 & Ho1 & _ & Hslots)] (o2 & Ho2 & Hlen & Hinj) Ho.
  assert (o1 = o) as -> by congruence. assert (o2 = o) as -> by congruence.
  pose proof (fresh_ne' _ _ _ Ho) as Hne.
  exists (array_set o (Z.of_nat i) (VRef (fresh (dom h)))).
  split. { unfold slot_store. rewrite lookup_insert_ne by done. by rewrite lookup_insert_eq. }
  split. { simpl. rewrite decide_True by lia. lia. }
  assert (∀ j, (j < i)%nat → props o !! Z.of_nat j ≠ Some (VRef (fresh (dom h)))) as Hold.
  { intros j Hj Hr. destruct (Hslots j Hj) as (r & Hr1 & _ & Hr2).
    assert (r = fresh (dom h)) as -> by congruence.
    by rewrite fresh_not_in in Hr2. }
  intros j j' r Hj Hj'. simpl.
  destruct (decide (j = i)) as [->|Hji], (decide (j' = i)) as [->|Hji']; first done.
  - rewrite lookup_insert_eq, lookup_insert_ne by lia.
    intros [= <-] Hr. destruct (Hold j'); [lia|done].
  - rewrite lookup_insert_eq, lookup_insert_ne by lia.
    intros Hr [= <-]. destruct (Hold j); [lia|done].
  - rewrite !lookup_insert_ne by lia. apply Hinj; lia.
Qed.

(** No slot of a cache refers to the cache itself. *)
Lemma filled_not_self (h1 h : heap) outer pick i o :
  is_Some (h1 !! outer) →
  filled h1 h outer pick i →
  h !! outer = Some (OArray o) →
  ∀ k, props o !! k ≠ Some (VRef outer).
Proof.
  intros Hout [_ (o' & Ho' & Hkeys & Hslots)] Ho k Hk.
  assert (o' = o) as -> by congruence.
  assert (0 ≤ k < Z.of_nat i) as Hr by (apply Hkeys; by eexists).
  destruct (Hslots (Z.to_nat k)) as (r & Hr1 & Hr2 & _); first lia.
  rewrite Z2Nat.id in Hr1 by lia.
  assert (r = outer) as -> by congruence.
  rewrite Hr2 in Hout. by destruct Hout.
Qed.

(** The loop of either lookup, for any body that does what the two
    bodies do. *)
Lemma fill_loop this e1 t outer pick (round : nat → M unit) (h1 : heap) :
  h1 !! this = Some (OEdge e1) →
  h1 !! temp (cell e1) = Some (OArray t) →
  h1 !! outer = Some (OArray empty_array) →
  temp (cell e1) ≠ outer →
  (∀ i h o, h !! this = Some (OEdge e1) → h !! temp (cell e1) = Some (OArray t) →
            h !! outer = Some (OArray o) →
            round i h =
              Some (tt, <[fresh (dom h) := OArray (array_push empty_array (pick i))]>
                          (slot_store h outer o i))) →
  ∃ h', for_loop (S (len t)) (below_temp_length this) round 0 h1 = Some (tt, h') ∧
        filled h1 h' outer pick (len t) ∧ apart h' outer (len t).
Proof.
  intros He1 Ht1 Ho1 Hne Hround.
  assert (this ≠ outer) as Hne' by (intros ->; congruence).
  apply (for_loop_invariant (λ i s, filled h1 s outer pick i ∧ apart s outer i)
           (below_temp_length this) round (len t)) with (k := len t).
  - intros i s [HI _].
    apply below_temp_length_Some with (e := e1); by eapply (filled_lookup h1).
  - intros i s Hi [HI HA]. pose proof HI as [_ (o & Ho & _)].
    eexists. split.
    + apply Hround with (o := o); [by eapply (filled_lookup h1)..|done].
    + split; [by apply filled_step | by eapply apart_step].
  - lia.
  - lia.
  - split; [by apply filled_start | by apply apart_start].
Qed.

(** What a first call of [getNextLayerConnectedCells] does, for all
    layers at once: the store it leaves behind does not depend on the
    layer that was asked for. *)
Lemma getNextLayerConnectedCells_builds_all this e t (h : heap) :
  h !! this = Some (OEdge e) →
  nextLayerConnectedCells (cell e) = None →
  h !! temp (cell e) = Some (OArray t) →
  ∃ h' outer o,
    (∀ layer, getNextLayerConnectedCells this layer h =
                Some (array_get o (layer - minRank (cell e) - 1), h')) ∧
    h' !! this = Some (OEdge (set_nextLayerConnectedCells (Some outer) e)) ∧
    built h h' this (len t) (next_cell this e t) outer o ∧
    apart h' outer (len t) ∧
    (∀ k, props o !! k ≠ Some (VRef outer)).
Proof.
  intros He Hc Ht.
  set (outer := fresh (dom h)).
  set (e1 := set_nextLayerConnectedCells (Some outer) e).
  set (h1 := <[this := OEdge e1]> (<[outer := OArray empty_array]> h) : heap).
  assert (outer ≠ this) as Hne1 by (by eapply fresh_ne').
  assert (outer ≠ temp (cell e)) as Hne2 by (by eapply fresh_ne').
  assert (temp (cell e) ≠ this) as Hne3 by (intros Heq; congruence).
  assert (h1 !! this = Some (OEdge e1)) as He1 by (unfold h1; by rewrite lookup_insert_eq).
  assert (h1 !! temp (cell e) = Some (OArray t)) as Ht1
    by (unfold h1; by rewrite !lookup_insert_ne).
  assert (h1 !! outer = Some (OArray empty_array)) as Ho1
    by (unfold h1; by rewrite lookup_insert_ne, lookup_insert_eq).
  destruct (fill_loop this e1 t outer (next_cell this e t) (next_round this) h1)
    as (h' & Hloop & Hfilled & Hapart); [done..| |].
  { intros i h0 o H1 H2 H3.
    by apply (next_round_Some this outer e1 t o i h0 H1 H2 H3). }
  destruct (filled_built h h' this e e1 (next_cell this e t) (len t) He Hfilled)
    as (o & He' & Hb).
  exists h', outer, o.
  split; last (split; [done|split; [done|split; [done|]]];
               apply (filled_not_self h1 h' outer _ _ o (mk_is_Some _ _ Ho1) Hfilled),
                 (built_outer _ _ _ _ _ _ _ Hb)).
  intros layer. unfold getNextLayerConnectedCells.
  rewrite (bind_Some _ _ _ _ _ (load_edge_Some _ _ _ He)).
  rewrite Hc.
  erewrite bind_Some; last first.
  { unfold new_array. rewrite (bind_Some _ _ _ _ _ (new_object_Some _ _)).
    erewrite bind_Some; last first.
    { apply update_edge_Some. rewrite lookup_insert_ne; [exact He|done]. }
    erewrite bind_Some; last first.
    { apply load_array_Some. rewrite !lookup_insert_ne; [exact Ht|done..]. }
    exact Hloop. }
  rewrite (bind_Some _ _ _ _ _ (load_edge_Some _ _ _ He')).
  simpl array_of_field. rewrite bind_ret.
  by rewrite (bind_Some _ _ _ _ _ (load_array_Some _ _ _ (built_outer _ _ _ _ _ _ _ Hb))).
Qed.

Lemma getPreviousLayerConnectedCells_builds_all this e t (h : heap) :
  h !! this = Some (OEdge e) →
  previousLayerConnectedCells (cell e) = None →
  h !! temp (cell e) = Some (OArray t) →
  ∃ h' outer o,
    (∀ layer, getPreviousLayerConnectedCells this layer h =
                Some (array_get o (layer - minRank (cell e) - 1), h')) ∧
    h' !! this = Some (OEdge (set_previousLayerConnectedCells (Some outer) e)) ∧
    built h h' this (len t) (previous_cell this e) outer o ∧
    apart h' outer (len t) ∧
    (∀ k, props o !! k ≠ Some (VRef outer)).
Proof.
  intros He Hc Ht.
  set (outer := fresh (dom h)).
  set (e1 := set_previousLayerConnectedCells (Some outer) e).
  set (h1 := <[this := OEdge e1]> (<[outer := OArray empty_array]> h) : heap).
  assert (outer ≠ this) as Hne1 by (by eapply fresh_ne').
  assert (outer ≠ temp (cell e)) as Hne2 by (by eapply fresh_ne').
  assert (temp (cell e) ≠ this) as Hne3 by (intros Heq; congruence).
  assert (h1 !! this = Some (OEdge e1)) as He1 by (unfold h1; by rewrite lookup_insert_eq).
  assert (h1 !! temp (cell e) = Some (OArray t)) as Ht1
    by (unfold h1; by rewrite !lookup_insert_ne).
  assert (h1 !! outer = Some (OArray empty_array)) as Ho1
    by (unfold h1; by rewrite lookup_insert_ne, lookup_insert_eq).
  destruct (fill_loop this e1 t outer (previous_cell this e) (previous_round this) h1)
    as (h' & Hloop & Hfilled & Hapart); [done..| |].
  { intros i h0 o H1 H2 H3.
    by apply (previous_round_Some this outer e1 o i h0 H1 H3). }
  destruct (filled_built h h' this e e1 (previous_cell this e) (len t) He Hfilled)
    as (o & He' & Hb).
  exists h', outer, o.
  split; last (split; [done|split; [done|split; [done|]]];
               apply (filled_not_self h1 h' outer _ _ o (mk_is_Some _ _ Ho1) Hfilled),
                 (built_outer _ _ _ _ _ _ _ Hb)).
  intros layer. unfold getPreviousLayerConnectedCells.
  rewrite (bind_Some _ _ _ _ _ (load_edge_Some _ _ _ He)).
  rewrite Hc.
  erewrite bind_Some; last first.
  { unfold new_array. rewrite (bind_Some _ _ _ _ _ (new_object_Some _ _)).
    erewrite bind_Some; last first.
    { apply update_edge_Some. rewrite lookup_insert_ne; [exact He|done]. }
    erewrite bind_Some; last first.
    { apply load_array_Some. rewrite !lookup_insert_ne; [exact Ht|done..]. }
    exact Hloop. }
  rewrite (bind_Some _ _ _ _ _ (load_edge_Some _ _ _ He')).
  simpl array_of_field. rewrite bind_ret.
  by rewrite (bind_Some _ _ _ _ _ (load_array_Some _ _ _ (built_outer _ _ _ _ _ _ _ Hb))).
Qed.

(** ** Calling a lookup again *)

(** X1: the store that a first call of [getNextLayerConnectedCells]
    leaves behind is the same for every layer asked for, and every
    later call returns, for the same layer, the same value as the first
    call would have and changes nothing: calling the method twice, or
    calling it for some other layer first, makes no difference to the
    result.  The same holds for [getPreviousLayerConnectedCells]. *)
Theorem lookups_repeat this e t (h : heap) :
  h !! this = Some (OEdge e) →
  nextLayerConnectedCells (cell e) = None →
  previousLayerConnectedCells (cell e) = None →
  h !! temp (cell e) = Some (OArray t) →
  (∃ h1, ∀ layer0 layer, ∃ v,
     getNextLayerConnectedCells this layer h = Some (v, h1) ∧
     getNextLayerConnectedCells this layer h1 = Some (v, h1) ∧
     (getNextLayerConnectedCells this layer0 ;;;
      getNextLayerConnectedCells this layer) h = Some (v, h1)) ∧
  (∃ h1, ∀ layer0 layer, ∃ v,
     getPreviousLayerConnectedCells this layer h = Some (v, h1) ∧
     getPreviousLayerConnectedCells this layer h1 = Some (v, h1) ∧
     (getPreviousLayerConnectedCells this layer0 ;;;
      getPreviousLayerConnectedCells this layer) h = Some (v, h1)).
Proof.
  intros He Hn Hp Ht. split.
  - destruct (getNextLayerConnectedCells_builds_all this e t h He Hn Ht)
      as (h1 & outer & o & Hrun & He1 & Hb & _ & _).
    exists h1. intros layer0 layer. eexists.
    assert (getNextLayerConnectedCells this layer h1 =
              Some (array_get o (layer - minRank (cell e) - 1), h1)) as Hagain.
    { by rewrite (getNextLayerConnectedCells_cached _ _ outer o _ _ He1 eq_refl
                    (built_outer _ _ _ _ _ _ _ Hb)). }
    split; first by apply Hrun. split; first exact Hagain.
    by rewrite (bind_Some _ _ _ _ _ (Hrun layer0)).
  - destruct (getPreviousLayerConnectedCells_builds_all this e t h He Hp Ht)
      as (h1 & outer & o & Hrun & He1 & Hb & _ & _).
    exists h1. intros layer0 layer. eexists.
    assert (getPreviousLayerConnectedCells this layer h1 =
              Some (array_get o (layer - minRank (cell e) - 1), h1)) as Hagain.
    { by rewrite (getPreviousLayerConnectedCells_cached _ _ outer o _ _ He1 eq_refl
                    (built_outer _ _ _ _ _ _ _ Hb)). }
    split; first by apply Hrun. split; first exact Hagain.
    by rewrite (bind_Some _ _ _ _ _ (Hrun layer0)).
Qed.

(** X2: a first call of [getNextLayerConnectedCells] writes one field
    of the edge, [nextLayerConnectedCells], which then holds a newly
    created array; every other field of the edge and every other object
    that existed before the call, [temp] among them, is as it was. *)
Theorem getNextLayerConnectedCells_frame this e t layer (h : heap) :
  h !! this = Some (OEdge e) →
  nextLayerConnectedCells (cell e) = None →
  h !! temp (cell e) = Some (OArray t) →
  ∃ v h1 e1 outer,
    getNextLayerConnectedCells this layer h = Some (v, h1) ∧
    h1 !! this = Some (OEdge e1) ∧
    nextLayerConnectedCells (cell e1) = Some outer ∧ h !! outer = None ∧
    previousLayerConnectedCells (cell e1) = previousLayerConnectedCells (cell e) ∧
    minRank (cell e1) = minRank (cell e) ∧ maxRank (cell e1) = maxRank (cell e) ∧
    temp (cell e1) = temp (cell e) ∧ id (cell e1) = id (cell e) ∧
    edges e1 = edges e ∧ ids e1 = ids e ∧
    source e1 = source e ∧ target e1 = target e ∧ isReversed e1 = isReversed e ∧
    h1 !! temp (cell e) = Some (OArray t) ∧
    (∀ l, is_Some (h !! l) → l ≠ this → h1 !! l = h !! l).
Proof.
  intros He Hc Ht.
  destruct (getNextLayerConnectedCells_builds_all this e t h He Hc Ht)
    as (h1 & outer & o & Hrun & He1 & Hb & _ & _).
  eexists _, h1, _, outer. split; first by apply Hrun.
  split; first exact He1. simpl.
  split; first done. split; first exact (built_fresh _ _ _ _ _ _ _ Hb).
  repeat (split; first done). split.
  - rewrite (built_frame _ _ _ _ _ _ _ Hb); [done|by eexists|]. intros Heq. congruence.
  - exact (built_frame _ _ _ _ _ _ _ Hb).
Qed.

(** X3: the cache that a first call builds has exactly as many slots as
    [temp] has; in range, the arrays of two different layers are two
    different objects, neither of which existed before the call and
    neither of which is the cache itself. *)
Theorem getNextLayerConnectedCells_extent this e t (h : heap) :
  h !! this = Some (OEdge e) →
  nextLayerConnectedCells (cell e) = None →
  h !! temp (cell e) = Some (OArray t) →
  ∃ h1 outer o,
    (∀ layer, ∃ v, getNextLayerConnectedCells this layer h = Some (v, h1)) ∧
    h1 !! outer = Some (OArray o) ∧ len o = len t ∧
    (∃ e1, h1 !! this = Some (OEdge e1) ∧ nextLayerConnectedCells (cell e1) = Some outer) ∧
    (∀ layer, minRank (cell e) + 1 ≤ layer ≤ minRank (cell e) + Z.of_nat (len t) →
       ∃ r, getNextLayerConnectedCells this layer h1 = Some (VRef r, h1) ∧
            h !! r = None ∧ r ≠ outer) ∧
    (∀ layer layer' r,
       minRank (cell e) + 1 ≤ layer ≤ minRank (cell e) + Z.of_nat (len t) →
       minRank (cell e) + 1 ≤ layer' ≤ minRank (cell e) + Z.of_nat (len t) →
       getNextLayerConnectedCells this layer h1 = Some (VRef r, h1) →
       getNextLayerConnectedCells this layer' h1 = Some (VRef r, h1) →
       layer = layer').
Proof.
  intros He Hc Ht.
  destruct (getNextLayerConnectedCells_builds_all this e t h He Hc Ht)
    as (h1 & outer & o & Hrun & He1 & Hb & (o' & Ho' & Hlen & Hinj) & Hself).
  pose proof (built_outer _ _ _ _ _ _ _ Hb) as Ho.
  assert (o' = o) as -> by congruence.
  assert (∀ layer, getNextLayerConnectedCells this layer h1 =
            Some (array_get o (layer - minRank (cell e) - 1), h1)) as Hagain.
  { intros layer.
    by rewrite (getNextLayerConnectedCells_cached _ _ outer o _ _ He1 eq_refl Ho). }
  exists h1, outer, o. split. { intros layer. eexists. apply Hrun. }
  split; first done. split; first done. split. { by eexists. }
  split.
  - intros layer Hl.
    destruct (built_slots _ _ _ _ _ _ _ Hb (Z.to_nat (layer - minRank (cell e) - 1)))
      as (r & Hr & Hr1 & Hr2); first lia.
    rewrite Z2Nat.id in Hr by lia.
    exists r. rewrite Hagain. unfold array_get. rewrite Hr.
    split; first done. split; first done.
    intros ->. by apply Hself in Hr.
  - intros layer layer' r Hl Hl'. rewrite !Hagain. intros [= H1] [= H2].
    destruct (built_slots _ _ _ _ _ _ _ Hb (Z.to_nat (layer - minRank (cell e) - 1)))
      as (r1 & Hr1 & _); first lia.
    destruct (built_slots _ _ _ _ _ _ _ Hb (Z.to_nat (layer' - minRank (cell e) - 1)))
      as (r2 & Hr2 & _); first lia.
    unfold array_get in H1, H2.
    rewrite Z2Nat.id in Hr1, Hr2 by lia.
    rewrite Hr1 in H1. rewrite Hr2 in H2. simpl in H1, H2.
    injection H1 as ->. injection H2 as ->.
    assert (Z.to_nat (layer - minRank (cell e) - 1) =
            Z.to_nat (layer' - minRank (cell e) - 1)) as Heq.
    { apply (Hinj _ _ r); [lia|lia|by rewrite Z2Nat.id by lia..]. }
    lia.
Qed.

(** ** What callers can do to a cache *)

(** X4: the array that [getNextLayerConnectedCells] returns is the one
    the cache holds, not a copy: when a caller pushes a value onto it,
    later calls for that layer return the same array with the value in
    it, while the arrays of the other layers in range are distinct
    objects and stay as they were. *)
Theorem getNextLayerConnectedCells_hands_out_cache this e t layer w (h : heap) :
  h !! this = Some (OEdge e) →
  nextLayerConnectedCells (cell e) = None →
  h !! temp (cell e) = Some (OArray t) →
  minRank (cell e) + 1 ≤ layer ≤ minRank (cell e) + Z.of_nat (len t) →
  ∃ h1 r c h2,
    getNextLayerConnectedCells this layer h = Some (VRef r, h1) ∧
    h1 !! r = Some (OArray (array_of_list [c])) ∧
    push_onto (VRef r) w h1 = Some (tt, h2) ∧
    getNextLayerConnectedCells this layer h2 = Some (VRef r, h2) ∧
    h2 !! r = Some (OArray (array_of_list [c; w])) ∧
    (∀ layer', minRank (cell e) + 1 ≤ layer' ≤ minRank (cell e) + Z.of_nat (len t) →
       layer' ≠ layer →
       ∃ r', getNextLayerConnectedCells this layer' h2 = Some (VRef r', h2) ∧
             r' ≠ r ∧ h2 !! r' = h1 !! r').
Proof.
  intros He Hc Ht Hl.
  destruct (getNextLayerConnectedCells_builds_all this e t h He Hc Ht)
    as (h1 & outer & o & Hrun & He1 & Hb & (o' & Ho' & Hlen & Hinj) & Hself).
  pose proof (built_outer _ _ _ _ _ _ _ Hb) as Ho.
  assert (o' = o) as -> by congruence.
  destruct (built_slots _ _ _ _ _ _ _ Hb (Z.to_nat (layer - minRank (cell e) - 1)))
    as (r & Hr & Hr1 & Hr2); first lia.
  rewrite Z2Nat.id in Hr by lia.
  assert (r ≠ this) as Hne1 by (intros ->; congruence).
  assert (r ≠ outer) as Hne2 by (intros ->; by apply Hself in Hr).
  set (h2 := <[r := OArray (array_push (array_of_list
                 [next_cell this e t (Z.to_nat (layer - minRank (cell e) - 1))]) w)]> h1).
  assert (∀ layer', getNextLayerConnectedCells this layer' h2 =
            Some (array_get o (layer' - minRank (cell e) - 1), h2)) as Hagain.
  { intros layer'.
    rewrite (getNextLayerConnectedCells_cached _ (set_nextLayerConnectedCells (Some outer) e) outer o); first done.
    - unfold h2. rewrite lookup_insert_ne by done. exact He1.
    - done.
    - unfold h2. by rewrite lookup_insert_ne. }
  exists h1, r, (next_cell this e t (Z.to_nat (layer - minRank (cell e) - 1))), h2.
  split. { rewrite Hrun. unfold array_get. by rewrite Hr. }
  split; first done.
  split. { unfold push_onto. by rewrite (update_array_Some _ _ _ _ Hr2). }
  split. { rewrite Hagain. unfold array_get. by rewrite Hr. }
  split. { unfold h2. by rewrite lookup_insert_eq. }
  intros layer' Hl' Hne.
  destruct (built_slots _ _ _ _ _ _ _ Hb (Z.to_nat (layer' - minRank (cell e) - 1)))
    as (r' & Hr' & _); first lia.
  rewrite Z2Nat.id in Hr' by lia.
  assert (r' ≠ r) as Hne3.
  { intros ->.
    assert (Z.to_nat (layer' - minRank (cell e) - 1) =
            Z.to_nat (layer - minRank (cell e) - 1)) as Heq.
    { apply (Hinj _ _ r); [lia|lia|by rewrite Z2Nat.id by lia..]. }
    lia. }
  exists r'. rewrite Hagain. unfold array_get. rewrite Hr'.
  split; first done. split; first done.
  unfold h2. by rewrite lookup_insert_ne.
Qed.

(** X5: the cache is not tied to [temp].  Once it is built,
    [setGeneralPurposeVariable] changes neither what
    [getNextLayerConnectedCells] returns for any layer nor the arrays
    it returns, whatever slot is written, even one that makes [temp]
    longer. *)
Theorem cache_ignores_scratch_writes this e t layer0 layer' w (h : heap) :
  h !! this = Some (OEdge e) →
  nextLayerConnectedCells (cell e) = None →
  h !! temp (cell e) = Some (OArray t) →
  ∃ v0 h1 h2,
    getNextLayerConnectedCells this layer0 h = Some (v0, h1) ∧
    setGeneralPurposeVariable this layer' w h1 = Some (tt, h2) ∧
    ∀ layer, ∃ v,
      getNextLayerConnectedCells this layer h1 = Some (v, h1) ∧
      getNextLayerConnectedCells this layer h2 = Some (v, h2) ∧
      (∀ r, v = VRef r → h2 !! r = h1 !! r).
Proof.
  intros He Hc Ht.
  destruct (getNextLayerConnectedCells_builds_all this e t h He Hc Ht)
    as (h1 & outer & o & Hrun & He1 & Hb & _ & _).
  pose proof (built_outer _ _ _ _ _ _ _ Hb) as Ho.
  assert (temp (cell e) ≠ this) as Hne1 by (intros Heq; congruence).
  assert (h1 !! temp (cell e) = Some (OArray t)) as Ht1.
  { rewrite (built_frame _ _ _ _ _ _ _ Hb); [done|by eexists|done]. }
  assert (temp (cell e) ≠ outer) as Hne2.
  { intros Heq. rewrite Heq in Ht. rewrite (built_fresh _ _ _ _ _ _ _ Hb) in Ht. done. }
  eexists _, h1, _. split; first by apply Hrun.
  split. { by apply (setGeneralPurposeVariable_Some this _ t layer' w h1 He1 Ht1). }
  intros layer. exists (array_get o (layer - minRank (cell e) - 1)). simpl.
  split. { by rewrite (getNextLayerConnectedCells_cached _ _ outer o _ _ He1 eq_refl Ho). }
  split.
  { rewrite (getNextLayerConnectedCells_cached _ (set_nextLayerConnectedCells (Some outer) e) outer o); first done.
    - by rewrite lookup_insert_ne.
    - done.
    - by rewrite lookup_insert_ne. }
  intros r Hv. unfold array_get in Hv.
  destruct (props o !! (layer - minRank (cell e) - 1)) as [v|] eqn:E; last done.
  simpl in Hv. subst v.
  assert (0 ≤ layer - minRank (cell e) - 1 < Z.of_nat (len t)) as Hr
    by (apply (built_keys _ _ _ _ _ _ _ Hb); by eexists).
  destruct (built_slots _ _ _ _ _ _ _ Hb (Z.to_nat (layer - minRank (cell e) - 1)))
    as (r' & Hr' & Hr1 & _); first lia.
  rewrite Z2Nat.id in Hr' by lia.
  assert (r' = r) as -> by congruence.
  rewrite lookup_insert_ne; first done.
  intros Heq. rewrite Heq in Ht. congruence.
Qed.

(** X6: so the order of a scratch write and the first lookup matters.
    Writing the slot just above the last one makes [temp] one longer,
    as long as [temp.length] is an array index (below [2^32 - 1]) and
    the subtraction [top - minRank - 1] is exact in doubles.  If that is
    done after the cache was built, the new topmost rank has no entry
    and the lookup for it returns [undefined]; if it is done before, the
    lookup for the new topmost rank returns [[source]]. *)
Theorem scratch_write_before_or_after_first_lookup this e t layer0 w (h : heap) :
  h !! this = Some (OEdge e) →
  nextLayerConnectedCells (cell e) = None →
  h !! temp (cell e) = Some (OArray t) →
  below_index_limit (Z.of_nat (len t)) →
  exact_key (minRank (cell e)) (minRank (cell e) + Z.of_nat (len t) + 1) →
  let top := minRank (cell e) + Z.of_nat (len t) + 1 in
  (∃ h', (getNextLayerConnectedCells this layer0 ;;;
          setGeneralPurposeVariable this top w ;;;
          getNextLayerConnectedCells this top) h = Some (VUndefined, h') ∧
         ∃ t', h' !! temp (cell e) = Some (OArray t') ∧ len t' = S (len t)) ∧
  (∃ r h', (setGeneralPurposeVariable this top w ;;;
            getNextLayerConnectedCells this top) h = Some (VRef r, h') ∧
           h' !! r = Some (OArray (array_of_list [source e])) ∧
           ∃ t', h' !! temp (cell e) = Some (OArray t') ∧ len t' = S (len t)).
Proof.
  intros He Hc Ht _ _ top.
  assert (temp (cell e) ≠ this) as Hne1 by (intros Heq; congruence).
  assert (top - minRank (cell e) - 1 = Z.of_nat (len t)) as Hidx by (unfold top; lia).
  assert (len (array_set t (Z.of_nat (len t)) w) = S (len t)) as Hlen.
  { simpl. rewrite decide_True by lia. lia. }
  split.
  - destruct (getNextLayerConnectedCells_builds_all this e t h He Hc Ht)
      as (h1 & outer & o & Hrun & He1 & Hb & _ & _).
    pose proof (built_outer _ _ _ _ _ _ _ Hb) as Ho.
    assert (h1 !! temp (cell e) = Some (OArray t)) as Ht1.
    { rewrite (built_frame _ _ _ _ _ _ _ Hb); [done|by eexists|done]. }
    assert (temp (cell e) ≠ outer) as Hne2.
    { intros Heq. rewrite Heq in Ht. rewrite (built_fresh _ _ _ _ _ _ _ Hb) in Ht. done. }
    eexists. split.
    + rewrite (bind_Some _ _ _ _ _ (Hrun layer0)).
      rewrite (bind_Some _ _ _ _ _
                 (setGeneralPurposeVariable_Some this _ t top w h1 He1 Ht1)).
      rewrite (getNextLayerConnectedCells_cached _ (set_nextLayerConnectedCells (Some outer) e) outer o); first last.
      * by rewrite lookup_insert_ne.
      * done.
      * by rewrite lookup_insert_ne.
      * simpl. rewrite (built_get_outside _ _ _ _ _ _ _ _ Hb); [done|lia].
    + eexists. rewrite lookup_insert_eq. split; first done.
      simpl minRank. by rewrite Hidx.
  - pose proof (setGeneralPurposeVariable_Some this e t top w h He Ht) as Hset.
    rewrite Hidx in Hset.
    set (t' := array_set t (Z.of_nat (len t)) w) in *.
    set (h0 := <[temp (cell e) := OArray t']> h) in *.
    assert (h0 !! this = Some (OEdge e)) as He0 by (unfold h0; by rewrite lookup_insert_ne).
    assert (h0 !! temp (cell e) = Some (OArray t')) as Ht0
      by (unfold h0; by rewrite lookup_insert_eq).
    destruct (getNextLayerConnectedCells_builds_all this e t' h0 He0 Hc Ht0)
      as (h1 & outer & o & Hrun & He1 & Hb & _ & _).
    destruct (built_get _ _ _ _ _ _ _ (len t) Hb) as (r & Hr & _ & Hr2); first lia.
    exists r, h1. split.
    + rewrite (bind_Some _ _ _ _ _ Hset). rewrite Hrun. by rewrite Hidx, Hr.
    + split.
      * rewrite Hr2. unfold next_cell. rewrite Hlen.
        rewrite (proj2 (Z.eqb_eq _ _)); [done|lia].
      * exists t'. split; last done.
        rewrite (built_frame _ _ _ _ _ _ _ Hb); [done|by eexists|done].
Qed.

(** ** Laws of the scratch slots *)



(** X7: writing the slot of one layer leaves the value read for every
    other layer as it was, for layers whose key [layer - minRank - 1]
    is computed exactly in doubles (all of [layer], [minRank] and the
    differences within [-2^53 .. 2^53]); beyond that two layers can
    share a key. *)
Theorem setGeneralPurposeVariable_other_layer this e t layer layer' v (h : heap) :
  h !! this = Some (OEdge e) →
  h !! temp (cell e) = Some (OArray t) →
  exact_key (minRank (cell e)) layer →
  exact_key (minRank (cell e)) layer' →
  layer ≠ layer' →
  ∃ v' h', getGeneralPurposeVariable this layer' h = Some (v', h) ∧
           setGeneralPurposeVariable this layer v h = Some (tt, h') ∧
           getGeneralPurposeVariable this layer' h' = Some (v', h').
Proof.
  intros He Ht _ _ Hne.
  assert (temp (cell e) ≠ this) as Hne' by (intros Heq; congruence).
  eexists _, _. split; first by eapply getGeneralPurposeVariable_Some.
  split; first by eapply setGeneralPurposeVariable_Some.
  erewrite (getGeneralPurposeVariable_Some this e);
    [|by rewrite lookup_insert_ne|by rewrite lookup_insert_eq].
  rewrite array_get_set_ne; [done|lia].
Qed.



(** ** invert and the other methods *)

(** X10: [invert()] and [setGeneralPurposeVariable] can be called in
    either order with the same resulting store, and [invert()] changes
    neither what [getGeneralPurposeVariable] nor what [getCoreCell]
    returns. *)
Theorem invert_independent this e t layer v (h : heap) :
  h !! this = Some (OEdge e) →
  h !! temp (cell e) = Some (OArray t) →
  ∃ h1,
    invert this h = Some (tt, h1) ∧
    (invert this ;;; setGeneralPurposeVariable this layer v) h
      = (setGeneralPurposeVariable this layer v ;;; invert this) h ∧
    is_Some ((invert this ;;; setGeneralPurposeVariable this layer v) h) ∧
    (∃ w, getGeneralPurposeVariable this layer h = Some (w, h) ∧
          getGeneralPurposeVariable this layer h1 = Some (w, h1)) ∧
    (∀ w, getCoreCell this h = Some (w, h) → getCoreCell this h1 = Some (w, h1)).
Proof.
  intros He Ht.
  assert (temp (cell e) ≠ this) as Hne by (intros Heq; congruence).
  pose proof (invert_Some _ _ _ He) as Hinv.
  match type of Hinv with _ = Some (_, <[this := OEdge ?x]> h) => set (e1 := x) in * end.
  assert ((<[this := OEdge e1]> h) !! this = Some (OEdge e1)) as He1
    by (by rewrite lookup_insert_eq).
  assert ((<[this := OEdge e1]> h) !! temp (cell e1) = Some (OArray t)) as Ht1
    by (simpl; by rewrite lookup_insert_ne).
  assert ((invert this ;;; setGeneralPurposeVariable this layer v) h =
            Some (tt, <[temp (cell e) := OArray (array_set t (layer - minRank (cell e) - 1) v)]>
                        (<[this := OEdge e1]> h))) as Hleft.
  { rewrite (bind_Some _ _ _ _ _ Hinv).
    by rewrite (setGeneralPurposeVariable_Some this e1 t layer v _ He1 Ht1). }
  exists (<[this := OEdge e1]> h). split; first done.
  split.
  { rewrite Hleft.
    rewrite (bind_Some _ _ _ _ _ (setGeneralPurposeVariable_Some this e t layer v h He Ht)).
    erewrite invert_Some; last by rewrite lookup_insert_ne.
    fold e1. by rewrite insert_insert_ne. }
  split. { rewrite Hleft. by eexists. }
  split.
  { eexists. split; first by eapply getGeneralPurposeVariable_Some.
    by rewrite (getGeneralPurposeVariable_Some this e1 t layer _ He1 Ht1). }
  intros w. unfold getCoreCell.
  rewrite (bind_Some _ _ _ _ _ (load_edge_Some _ _ _ He)).
  rewrite (bind_Some _ _ _ _ _ (load_edge_Some _ _ _ He1)).
  simpl. destruct (edges e) as [l|]; last by intros [= <-].
  unfold bind at 1. unfold load_array at 1.
  destruct (h !! l) as [[a| |]|] eqn:El; try done.
  assert (l ≠ this) as Hl by (intros ->; congruence).
  erewrite bind_Some; last by (apply load_array_Some; rewrite lookup_insert_ne).
  case_decide; by intros [= <-].
Qed.

(** X11: before the cache is built, an inversion does show in the
    lookups: [invert()] followed by a first
    [getNextLayerConnectedCells] for the topmost rank returns the array
    of the former [target], and a first [getPreviousLayerConnectedCells]
    for the bottom rank returns the array of the former [source]. *)
Theorem invert_before_first_lookup this e t (h : heap) :
  h !! this = Some (OEdge e) →
  nextLayerConnectedCells (cell e) = None →
  previousLayerConnectedCells (cell e) = None →
  h !! temp (cell e) = Some (OArray t) →
  (0 < len t)%nat →
  (∃ r h', (invert this ;;;
            getNextLayerConnectedCells this (minRank (cell e) + Z.of_nat (len t))) h
             = Some (VRef r, h') ∧
           h' !! r = Some (OArray (array_of_list [target e]))) ∧
  (∃ r h', (invert this ;;;
            getPreviousLayerConnectedCells this (minRank (cell e) + 1)) h
             = Some (VRef r, h') ∧
           h' !! r = Some (OArray (array_of_list [source e]))).
Proof.
  intros He Hn Hp Ht Hlen.
  assert (temp (cell e) ≠ this) as Hne by (intros Heq; congruence).
  pose proof (invert_Some _ _ _ He) as Hinv.
  match type of Hinv with _ = Some (_, <[this := OEdge ?x]> h) => set (e1 := x) in * end.
  assert ((<[this := OEdge e1]> h) !! this = Some (OEdge e1)) as He1
    by (by rewrite lookup_insert_eq).
  assert ((<[this := OEdge e1]> h) !! temp (cell e1) = Some (OArray t)) as Ht1
    by (simpl; by rewrite lookup_insert_ne).
  split.
  - destruct (getNextLayerConnectedCells_builds_all this e1 t _ He1 Hn Ht1)
      as (h1 & outer & o & Hrun & _ & Hb & _ & _).
    destruct (built_get _ _ _ _ _ _ _ (len t - 1)%nat Hb) as (r & Hr & _ & Hr2); first lia.
    exists r, h1. rewrite (bind_Some _ _ _ _ _ Hinv), Hrun. simpl minRank.
    replace (minRank (cell e) + Z.of_nat (len t) - minRank (cell e) - 1)
      with (Z.of_nat (len t - 1)) by lia.
    rewrite Hr. split; first done.
    rewrite Hr2. unfold next_cell. rewrite (proj2 (Z.eqb_eq _ _)); [done|lia].
  - destruct (getPreviousLayerConnectedCells_builds_all this e1 t _ He1 Hp Ht1)
      as (h1 & outer & o & Hrun & _ & Hb & _ & _).
    destruct (built_get _ _ _ _ _ _ _ 0%nat Hb) as (r & Hr & _ & Hr2); first lia.
    exists r, h1. rewrite (bind_Some _ _ _ _ _ Hinv), Hrun. simpl minRank.
    replace (minRank (cell e) + 1 - minRank (cell e) - 1) with (Z.of_nat 0) by lia.
    rewrite Hr. split; first done. by rewrite Hr2.
Qed.

(** ** The two caches *)

(** X12: the two caches do not interfere.  After a first
    [getNextLayerConnectedCells], a first
    [getPreviousLayerConnectedCells] for a layer in range still creates
    and returns a new one-element array, [[target]] for the bottom rank
    and [[this]] otherwise, and afterwards [getNextLayerConnectedCells]
    returns for every layer what it returned before, with the arrays
    unchanged. *)
Theorem lookups_independent this e t layer0 layer (h : heap) :
  h !! this = Some (OEdge e) →
  nextLayerConnectedCells (cell e) = None →
  previousLayerConnectedCells (cell e) = None →
  h !! temp (cell e) = Some (OArray t) →
  minRank (cell e) + 1 ≤ layer ≤ minRank (cell e) + Z.of_nat (len t) →
  ∃ v0 h1 r h2,
    getNextLayerConnectedCells this layer0 h = Some (v0, h1) ∧
    getPreviousLayerConnectedCells this layer h1 = Some (VRef r, h2) ∧
    h1 !! r = None ∧
    h2 !! r = Some (OArray (array_of_list
                [if decide (layer = minRank (cell e) + 1) then target e else VRef this])) ∧
    (∀ layer', ∃ v, getNextLayerConnectedCells this layer' h1 = Some (v, h1) ∧
                    getNextLayerConnectedCells this layer' h2 = Some (v, h2) ∧
                    (∀ r', v = VRef r' → h2 !! r' = h1 !! r')).
Proof.
  intros He Hn Hp Ht Hl.
  destruct (getNextLayerConnectedCells_builds_all this e t h He Hn Ht)
    as (h1 & outer & o & Hrun & He1 & Hb & _ & _).
  pose proof (built_outer _ _ _ _ _ _ _ Hb) as Ho.
  assert (temp (cell e) ≠ this) as Hne1 by (intros Heq; congruence).
  assert (this ≠ outer) as Hne2 by (intros Heq; rewrite Heq in He1; congruence).
  assert (h1 !! temp (cell e) = Some (OArray t)) as Ht1.
  { rewrite (built_frame _ _ _ _ _ _ _ Hb); [done|by eexists|done]. }
  set (e1 := set_nextLayerConnectedCells (Some outer) e) in *.
  destruct (getPreviousLayerConnectedCells_builds_all this e1 t h1 He1 Hp Ht1)
    as (h2 & outer2 & o2 & Hrun2 & He2 & Hb2 & _ & _).
  destruct (built_get _ _ _ _ _ _ _ (Z.to_nat (layer - minRank (cell e) - 1)) Hb2)
    as (r & Hr & Hr1 & Hr2); first lia.
  rewrite Z2Nat.id in Hr by lia.
  eexists _, h1, r, h2. split; first by apply Hrun.
  split. { rewrite Hrun2. simpl minRank. by rewrite Hr. }
  split; first done.
  split.
  { rewrite Hr2. unfold previous_cell. rewrite Z2Nat.id by lia. simpl target.
    case_decide; [rewrite (proj2 (Z.eqb_eq _ _))|rewrite (proj2 (Z.eqb_neq _ _))];
      (done || lia). }
  assert (h2 !! outer = Some (OArray o)) as Ho2.
  { rewrite (built_frame _ _ _ _ _ _ _ Hb2); [done|by eexists|by apply not_eq_sym]. }
  intros layer'. exists (array_get o (layer' - minRank (cell e) - 1)).
  split. { by rewrite (getNextLayerConnectedCells_cached _ _ outer o _ _ He1 eq_refl Ho). }
  split. { by rewrite (getNextLayerConnectedCells_cached _ _ outer o _ _ He2 eq_refl Ho2). }
  intros r' Hv. unfold array_get in Hv.
  destruct (props o !! (layer' - minRank (cell e) - 1)) as [v|] eqn:E; last done.
  simpl in Hv. subst v.
  assert (0 ≤ layer' - minRank (cell e) - 1 < Z.of_nat (len t)) as Hk
    by (apply (built_keys _ _ _ _ _ _ _ Hb); by eexists).
  destruct (built_slots _ _ _ _ _ _ _ Hb (Z.to_nat (layer' - minRank (cell e) - 1)))
    as (r0 & Hr0 & _ & Hr0'); first lia.
  rewrite Z2Nat.id in Hr0 by lia.
  assert (r0 = r') as -> by congruence.
  apply (built_frame _ _ _ _ _ _ _ Hb2); first by eexists.
  intros ->. congruence.
Qed.

(** ** More about the constructor *)

(** X14: on a newly constructed edge [getCoreCell()] returns the first
    element of the list the edge was constructed from, and [null] when
    that list is empty. *)
Theorem constructor_then_getCoreCell
    (IdState : Type) (mxObjectIdentity_get : value → IdState → value * IdState)
    super_ edges_ a (h : heap) (s : IdState) :
  h !! edges_ = Some (OArray a) →
  ∃ this h' s',
    constructor IdState mxObjectIdentity_get super_ edges_ (h, s) = Some (this, (h', s')) ∧
    getCoreCell this h' =
      Some (if decide (0 < len a)%nat then array_get a 0 else VNull, h').
Proof.
  intros Ha.
  destruct (constructor_Some IdState mxObjectIdentity_get super_ edges_ a h s Ha)
    as (this & idl & h' & Hrun & Hthis & Hidl & Hne & Hthis' & Hidl' & Hfr).
  assert (h' !! edges_ = Some (OArray a)) as Ha'
    by (rewrite Hfr; [done|intros ->; congruence..]).
  eexists this, h', _. split; first exact Hrun.
  unfold getCoreCell.
  rewrite (bind_Some _ _ _ _ _ (load_edge_Some _ _ _ Hthis')). simpl.
  rewrite (bind_Some _ _ _ _ _ (load_array_Some _ _ _ Ha')).
  by case_decide.
Qed.

(** X15: the edge holds the caller's array, not a copy, and [ids] is
    filled once: when the array is changed after the construction,
    [getCoreCell()] follows the change, while the [ids] array stays as
    the constructor left it. *)
Theorem constructor_keeps_callers_array
    (IdState : Type) (mxObjectIdentity_get : value → IdState → value * IdState)
    super_ edges_ a (f : jsarray → jsarray) (h : heap) (s : IdState) :
  h !! edges_ = Some (OArray a) →
  ∃ this idl h' s' h2,
    constructor IdState mxObjectIdentity_get super_ edges_ (h, s) = Some (this, (h', s')) ∧
    update_array edges_ f h' = Some (tt, h2) ∧
    h2 !! edges_ = Some (OArray (f a)) ∧
    getCoreCell this h2 =
      Some (if decide (0 < len (f a))%nat then array_get (f a) 0 else VNull, h2) ∧
    (∃ e', h2 !! this = Some (OEdge e') ∧ ids e' = Some idl) ∧
    h2 !! idl = h' !! idl ∧
    h2 !! idl = Some (OArray (array_of_list
                  (identities IdState mxObjectIdentity_get (array_elems a) s).1)).
Proof.
  intros Ha.
  destruct (constructor_Some IdState mxObjectIdentity_get super_ edges_ a h s Ha)
    as (this & idl & h' & Hrun & Hthis & Hidl & Hne & Hthis' & Hidl' & Hfr).
  assert (edges_ ≠ this) as Hne1 by (intros ->; congruence).
  assert (edges_ ≠ idl) as Hne2 by (intros ->; congruence).
  assert (h' !! edges_ = Some (OArray a)) as Ha' by (by rewrite Hfr).
  eexists this, idl, h', _, _. split; first exact Hrun.
  split; first exact (update_array_Some _ _ _ _ Ha').
  split; first by rewrite lookup_insert_eq.
  split.
  { unfold getCoreCell.
    erewrite bind_Some; last by (apply load_edge_Some; rewrite lookup_insert_ne).
    simpl.
    erewrite bind_Some; last by (apply load_array_Some; rewrite lookup_insert_eq).
    by case_decide. }
  split. { eexists. by rewrite lookup_insert_ne. }
  split; first by rewrite lookup_insert_ne.
  by rewrite lookup_insert_ne.
Qed.

(** * mxXmlRequest *)

(** ** Strings *)

Lemma index_from_absent c s i : ¬ XmlRequest.occurs c s → XmlRequest.index_from c s i = -1.
Proof.
  revert i. induction s as [|a s IH]; intros i Hno; simpl; first done.
  simpl in Hno. destruct (Ascii.eqb_spec a c) as [->|Hne]; first tauto.
  apply IH. tauto.
Qed.

Lemma index_from_first c s1 s2 i :
  ¬ XmlRequest.occurs c s1 →
  XmlRequest.index_from c (s1 +:+ String c s2) i = i + Z.of_nat (String.length s1).
Proof.
  revert i. induction s1 as [|a s1 IH]; intros i Hno; simpl.
  - rewrite Ascii.eqb_refl. lia.
  - simpl in Hno. destruct (Ascii.eqb_spec a c) as [->|Hne]; first tauto.
    rewrite IH by tauto. lia.
Qed.

Lemma occurs_app c s1 s2 :
  XmlRequest.occurs c (s1 +:+ s2) ↔ XmlRequest.occurs c s1 ∨ XmlRequest.occurs c s2.
Proof. induction s1 as [|a s1 IH]; simpl; tauto. Qed.

Lemma split_absent c s : ¬ XmlRequest.occurs c s → XmlRequest.split c s = [s].
Proof.
  induction s as [|a s IH]; intros Hno; simpl; first done.
  simpl in Hno. destruct (Ascii.eqb_spec a c) as [->|Hne]; first tauto.
  rewrite IH by tauto. done.
Qed.

Lemma split_first c s1 s2 :
  ¬ XmlRequest.occurs c s1 →
  XmlRequest.split c (s1 +:+ String c s2) = s1 :: XmlRequest.split c s2.
Proof.
  induction s1 as [|a s1 IH]; intros Hno; simpl.
  - by rewrite Ascii.eqb_refl.
  - simpl in Hno. destruct (Ascii.eqb_spec a c) as [->|Hne]; first tauto.
    rewrite IH by tauto. done.
Qed.

Lemma split_join c pieces :
  pieces ≠ [] → Forall (λ piece, ¬ XmlRequest.occurs c piece) pieces →
  XmlRequest.split c (XmlRequest.join c pieces) = pieces.
Proof.
  induction pieces as [|piece pieces IH]; intros Hne Hall; first done.
  apply Forall_cons in Hall as [Hp Hall].
  destruct pieces as [|piece' pieces]; simpl.
  - by apply split_absent.
  - rewrite split_first by done. f_equal. by apply IH.
Qed.

Lemma take_units_app s1 s2 : XmlRequest.take_units (String.length s1) (s1 +:+ s2) = s1.
Proof.
  induction s1 as [|a s1 IH]; simpl.
  - by destruct s2.
  - by rewrite IH.
Qed.

Lemma take_units_all s : XmlRequest.take_units (String.length s) s = s.
Proof. induction s as [|a s IH]; simpl; [done|by rewrite IH]. Qed.

Lemma drop_units_app s1 s2 : XmlRequest.drop_units (String.length s1) (s1 +:+ s2) = s2.
Proof. induction s1 as [|a s1 IH]; simpl; [by destruct s2|done]. Qed.

Lemma length_append s1 s2 :
  String.length (s1 +:+ s2) = (String.length s1 + String.length s2)%nat.
Proof. induction s1 as [|a s1 IH]; simpl; [done|by rewrite IH]. Qed.

(** Taking a field apart again. *)
Lemma field_index name text :
  ¬ XmlRequest.occurs "=" name →
  XmlRequest.indexOf (XmlRequest.encode_field (name, text)) "=" = Z.of_nat (String.length name).
Proof.
  intros Hno. unfold XmlRequest.indexOf, XmlRequest.encode_field. simpl.
  by rewrite index_from_first.
Qed.

Lemma field_name name text :
  XmlRequest.substring (XmlRequest.encode_field (name, text)) 0
    (Some (Z.of_nat (String.length name))) = name.
Proof.
  unfold XmlRequest.substring, XmlRequest.encode_field. simpl.
  rewrite length_append. simpl.
  replace (Z.to_nat (Z.min (Z.max 0 0) _)) with 0%nat by lia.
  replace (Z.to_nat (Z.min (Z.max (Z.of_nat (String.length name)) 0) _))
    with (String.length name) by lia.
  rewrite Nat.max_0_l, Nat.min_0_l, Nat.sub_0_r. simpl.
  apply take_units_app.
Qed.

Lemma field_text name text :
  XmlRequest.substring (XmlRequest.encode_field (name, text))
    (Z.of_nat (String.length name) + 1) None = text.
Proof.
  unfold XmlRequest.substring, XmlRequest.encode_field. simpl.
  rewrite length_append. simpl.
  replace (Z.to_nat (Z.min (Z.max (Z.of_nat (String.length name) + 1) 0) _))
    with (S (String.length name)) by lia.
  rewrite Nat.max_r, Nat.min_l by lia.
  replace (String.length name + S (String.length text) - S (String.length name))%nat
    with (String.length text) by lia.
  change (S (String.length name)) with (String.length (String "=" name)).
  replace (name +:+ String "=" text) with ((name +:+ "=") +:+ text).
  2:{ clear. induction name as [|a name IH]; [done|].
      change ((String a name +:+ "=") +:+ text) with (String a ((name +:+ "=") +:+ text)).
      change (String a name +:+ String "=" text) with (String a (name +:+ String "=" text)).
      by rewrite IH. }
  replace (String.length (String "=" name)) with (String.length (name +:+ "="))
    by (rewrite length_append; simpl; lia).
  rewrite drop_units_app. apply take_units_all.
Qed.

(** ** Running simulate *)

Lemma index_from_found c s i :
  XmlRequest.index_from c s i ≠ -1 →
  ∃ s1 s2, s = s1 +:+ String c s2 ∧ ¬ XmlRequest.occurs c s1 ∧
           XmlRequest.index_from c s i = i + Z.of_nat (String.length s1).
Proof.
  revert i. induction s as [|a s IH]; intros i Hfound; simpl in *; first done.
  destruct (Ascii.eqb_spec a c) as [->|Hne].
  - exists EmptyString, s. simpl. split; first done. split; [tauto|lia].
  - destruct (IH _ Hfound) as (s1 & s2 & -> & Hno & Hidx).
    exists (String a s1), s2. simpl. split; first done.
    split; first (intros [?|?]; tauto). rewrite Hidx. lia.
Qed.

Lemma split_pieces c s : Forall (λ piece, ¬ XmlRequest.occurs c piece) (XmlRequest.split c s).
Proof.
  induction s as [|a s IH]; simpl.
  - constructor; [simpl; tauto|constructor].
  - destruct (Ascii.eqb_spec a c) as [->|Hne].
    + constructor; [simpl; tauto|done].
    + destruct (XmlRequest.split c s) as [|piece rest].
      * constructor; [simpl; tauto|constructor].
      * apply Forall_cons in IH as [Hp Hrest].
        constructor; last done. simpl. tauto.
Qed.

Section SimulateProofs.

Import XmlRequest.

Variable decodeURIComponent : string → option string.
Variable dom_throws : list dom_call → dom_call → option error.

Local Abbreviation call := (XmlRequest.call dom_throws).
Local Abbreviation add_textarea := (XmlRequest.add_textarea decodeURIComponent dom_throws).
Local Abbreviation simulate := (XmlRequest.simulate decodeURIComponent dom_throws).

Lemma after_nil b : after b [] = b.
Proof. destruct b. unfold after. simpl. by rewrite app_nil_r. Qed.

Lemma after_after b xs ys : after (after b xs) ys = after b (xs ++ ys).
Proof. unfold after. simpl. by rewrite app_assoc. Qed.

Lemma call_None c b : dom_throws (calls b) c = None → call c b = (Done tt, after b [c]).
Proof. unfold XmlRequest.call. by intros ->. Qed.

Lemma call_Some c b e : dom_throws (calls b) c = Some e → call c b = (Thrown e, b).
Proof. unfold XmlRequest.call. by intros ->. Qed.

Lemma none_throws_nil before : none_throws dom_throws before [].
Proof. intros made c rest H. by destruct made. Qed.

Lemma none_throws_cons before c cs :
  dom_throws before c = None →
  none_throws dom_throws (before ++ [c]) cs →
  none_throws dom_throws before (c :: cs).
Proof.
  intros Hc Hcs made c0 rest H. destruct made as [|c1 made]; simpl in H.
  - injection H as -> ->. by rewrite app_nil_r.
  - injection H as -> ->. specialize (Hcs made c0 rest eq_refl).
    by rewrite <- app_assoc in Hcs.
Qed.

Lemma none_throws_inv before c cs :
  none_throws dom_throws before (c :: cs) →
  dom_throws before c = None ∧ none_throws dom_throws (before ++ [c]) cs.
Proof.
  intros H. split.
  - specialize (H [] c cs eq_refl). by rewrite app_nil_r in H.
  - intros made c0 rest ->. specialize (H (c :: made) c0 rest eq_refl).
    by rewrite <- app_assoc.
Qed.

(** A list of calls runs through, or stops at the first call that
    throws. *)
Lemma for_each_call_cases cs b :
  (for_each call cs b = (Done tt, after b cs) ∧ none_throws dom_throws (calls b) cs) ∨
  (∃ made c rest e,
     cs = made ++ c :: rest ∧ none_throws dom_throws (calls b) made ∧
     dom_throws (calls b ++ made) c = Some e ∧
     for_each call cs b = (Thrown e, after b made)).
Proof.
  revert b. induction cs as [|c cs IH]; intros b.
  - left. simpl. rewrite after_nil. split; [done|apply none_throws_nil].
  - simpl. unfold mbind, Dom_bind.
    destruct (dom_throws (calls b) c) as [e|] eqn:E.
    + right. exists [], c, cs, e. rewrite app_nil_r, (call_Some _ _ _ E), after_nil.
      split_and!; try done. apply none_throws_nil.
    + rewrite (call_None _ _ E).
      destruct (IH (after b [c]))
        as [[Hrun Hnone]|(made & c' & rest & e & -> & Hnone & Hth & Hrun)].
      * left. rewrite Hrun, after_after. split; first done.
        by apply none_throws_cons.
      * right. exists (c :: made), c', rest, e. rewrite Hrun, after_after.
        simpl in Hth. rewrite <- app_assoc in Hth.
        split_and!; try done. by apply none_throws_cons.
Qed.

Lemma for_each_call_none cs b :
  none_throws dom_throws (calls b) cs → for_each call cs b = (Done tt, after b cs).
Proof.
  intros Hnone.
  destruct (for_each_call_cases cs b) as [[Hrun _]|(made & c & rest & e & Hcs & _ & Hth & _)];
    first done.
  rewrite (Hnone _ _ _ Hcs) in Hth. done.
Qed.

Lemma for_each_call_throws made c rest e b :
  none_throws dom_throws (calls b) made →
  dom_throws (calls b ++ made) c = Some e →
  for_each call (made ++ c :: rest) b = (Thrown e, after b made).
Proof.
  revert b. induction made as [|c0 made IH]; intros b Hnone Hth.
  - rewrite app_nil_r in Hth. simpl. unfold mbind, Dom_bind.
    by rewrite (call_Some _ _ _ Hth), after_nil.
  - apply none_throws_inv in Hnone as [Hc0 Hnone].
    simpl. unfold mbind, Dom_bind. rewrite (call_None _ _ Hc0).
    rewrite IH, ?after_after; [done|done|].
    simpl. by rewrite <- app_assoc.
Qed.

Lemma for_each_app {A} (f : A → Dom unit) xs ys b :
  for_each f (xs ++ ys) b =
    match for_each f xs b with
    | (Done _, b') => for_each f ys b'
    | (Thrown e, b') => (Thrown e, b')
    end.
Proof.
  revert b. induction xs as [|x xs IH]; intros b; first done.
  simpl. unfold mbind, Dom_bind. destruct (f x b) as [[[]|e] b1]; [apply IH|done].
Qed.

Local Ltac red_dom :=
  repeat (progress (unfold mbind, Dom_bind, mret, Dom_ret, get_onbeforeunload,
                      set_onbeforeunload, throw, XmlRequest.call;
                    cbn [for_each app onbeforeunload calls fst snd andb])).

Local Ltac run_calls :=
  red_dom;
  repeat first
    [ done
    | match goal with
      | |- context [dom_throws ?l ?c] => destruct (dom_throws l c); red_dom
      end ].

(** [simulate] in four parts: the form, the text areas, the submission,
    the handler. *)
Lemma simulate_parts this own target attached b :
  simulate this own target attached b =
    match for_each call (form_calls this target) (started own b) with
    | (Thrown e, b1) => (Thrown e, b1)
    | (Done _, b1) =>
        match params this with
        | None => (Thrown TypeError, b1)
        | Some p =>
            match for_each (add_textarea this) (pieces p) b1 with
            | (Thrown e, b2) => (Thrown e, b2)
            | (Done _, b2) =>
                match for_each call (submit_calls attached) b2 with
                | (Thrown e, b3) => (Thrown e, b3)
                | (Done _, b3) =>
                    (Done tt,
                     {| onbeforeunload :=
                          if own && not_null (onbeforeunload b)
                          then onbeforeunload b else onbeforeunload b3;
                        calls := calls b3 |})
                end
            end
        end
    end.
Proof.
  unfold XmlRequest.simulate, started, form_calls, submit_calls, pieces.
  destruct b as [old made0], own, target as [tg|];
    run_calls;
    (destruct (params this) as [p|]; last done);
    red_dom;
    match goal with
    | |- context [for_each ?f ?xs ?b] => destruct (for_each f xs b) as [[[]|e] [old2 made2]]
    end; try done;
    destruct attached;
    run_calls;
    destruct (not_null old); done.
Qed.

(** One piece that is a field with a name gives one text area, once
    the text has been decoded. *)
Lemma add_textarea_field this name text b :
  name ≠ EmptyString → ¬ occurs "=" name →
  add_textarea this (encode_field (name, text)) b =
    match (if decodeSimulateValues this then decodeURIComponent text else Some text) with
    | Some text' => for_each call (textarea_calls (name, text')) b
    | None => (Thrown URIError, b)
    end.
Proof.
  intros Hname Hno. unfold XmlRequest.add_textarea.
  rewrite field_index by done.
  assert ((0 <? Z.of_nat (String.length name)) = true) as ->.
  { apply Z.ltb_lt. destruct name; simpl; [done|lia]. }
  rewrite field_name, field_text. unfold textarea_calls.
  destruct b as [old made0].
  destruct (decodeSimulateValues this); [destruct (decodeURIComponent text)|];
    run_calls.
Qed.

(** Any piece is skipped or is such a field. *)
Lemma piece_cases par :
  (0 <? indexOf par "=") = false ∨
  ∃ name text, par = encode_field (name, text) ∧ name ≠ EmptyString ∧ ¬ occurs "=" name.
Proof.
  destruct (0 <? indexOf par "=") eqn:E; [right|by left].
  apply Z.ltb_lt in E. unfold indexOf in *.
  destruct (index_from_found "=" par 0) as (s1 & s2 & -> & Hno & Hidx); first lia.
  exists s1, s2. split; first done. split; last done.
  intros ->. rewrite Hidx in E. simpl in E. lia.
Qed.

Lemma origin_cons par pars (fields : list (string * string)) :
  Forall (λ field, field.1 ≠ EmptyString ∧ ¬ occurs "=" field.1 ∧
                   ∃ par' text, In par' pars ∧ par' = encode_field (field.1, text)) fields →
  Forall (λ field, field.1 ≠ EmptyString ∧ ¬ occurs "=" field.1 ∧
                   ∃ par' text, In par' (par :: pars) ∧ par' = encode_field (field.1, text))
    fields.
Proof.
  intros Hf. eapply Forall_impl; first exact Hf.
  intros field (H1 & H2 & par' & text' & Hin & Heq). split_and!; try done.
  exists par', text'. split; [by right|done].
Qed.

(** The text areas of a run of the loop: the fields it has begun to
    write, each of them read off one of the pieces, and the calls it
    has made for them. *)
Lemma for_each_add_textarea this pars b :
  ∃ fields made rest o,
    for_each (add_textarea this) pars b = (o, after b made) ∧
    flat_map textarea_calls fields = made ++ rest ∧
    Forall (λ field, field.1 ≠ EmptyString ∧ ¬ occurs "=" field.1 ∧
                     ∃ par text, In par pars ∧ par = encode_field (field.1, text)) fields ∧
    (length fields ≤ length pars)%nat ∧
    ((o = Done tt ∧ rest = []) ∨
     (o = Thrown URIError ∧ decodeSimulateValues this = true ∧ rest = []) ∨
     (∃ e c rest', o = Thrown e ∧ rest = c :: rest' ∧
                   dom_throws (calls b ++ made) c = Some e)).
Proof.
  revert b. induction pars as [|par pars IH]; intros b.
  - exists [], [], [], (Done tt). simpl. rewrite after_nil. split_and!; by auto.
  - simpl. unfold mbind, Dom_bind.
    destruct (piece_cases par) as [Hskip|(name & text & -> & Hname & Hno)].
    + replace (XmlRequest.add_textarea decodeURIComponent dom_throws this par b)
        with (Done tt, b) by (unfold XmlRequest.add_textarea; by rewrite Hskip).
      destruct (IH b) as (fields & made & rest & o & Hrun & Hc & Hf & Hl & Ho).
      exists fields, made, rest, o. split_and!; try done.
      * by apply origin_cons.
      * simpl. lia.
    + rewrite (add_textarea_field this name text b Hname Hno).
      destruct (if decodeSimulateValues this then decodeURIComponent text else Some text)
        as [text'|] eqn:Htext.
      * destruct (for_each_call_cases (textarea_calls (name, text')) b)
          as [[Hrun _]|(made & c & rest & e & Hcs & _ & Hth & Hrun)]; rewrite Hrun.
        -- destruct (IH (after b (textarea_calls (name, text'))))
             as (fields & made & rest & o & Hrun' & Hc & Hf & Hl & Ho).
           exists ((name, text') :: fields), (textarea_calls (name, text') ++ made), rest, o.
           rewrite Hrun', after_after. split_and!; try done.
           ++ simpl flat_map. by rewrite Hc, <- app_assoc.
           ++ constructor.
              ** split_and!; try done. exists (encode_field (name, text)), text.
                 split; [by left|done].
              ** by apply origin_cons.
           ++ simpl. lia.
           ++ destruct Ho as [?|[?|(e & c & rest' & -> & -> & Hth)]]; [by left|by right; left|].
              right; right. exists e, c, rest'. split_and!; try done.
              simpl in Hth. by rewrite <- app_assoc in Hth.
        -- exists [(name, text')], made, (c :: rest), (Thrown e).
           split_and!; try done.
           ++ constructor; last done. split_and!; try done.
              exists (encode_field (name, text)), text. split; [by left|done].
           ++ simpl. lia.
           ++ right; right. by exists e, c, rest.
      * exists [], [], [], (Thrown URIError). rewrite after_nil.
        split_and!; try done; [simpl; lia|].
        right; left. split_and!; try done.
        destruct (decodeSimulateValues this); done.
Qed.

(** The pieces of an encoded list of fields are the encoded fields. *)
Lemma encoded_no_amp field : plain_field field → ¬ occurs "&" (encode_field field).
Proof.
  intros (_ & _ & Hn & Ht). unfold encode_field. rewrite occurs_app. simpl.
  intros [?|[?|?]]; done.
Qed.

Lemma pieces_encoded fields :
  fields ≠ [] → Forall plain_field fields →
  pieces (encode_fields fields) = map encode_field fields.
Proof.
  intros Hne Hall. unfold pieces, encode_fields.
  assert (Forall (λ piece, ¬ occurs "&" piece) (map encode_field fields)) as Hno.
  { apply Forall_map. eapply Forall_impl; first exact Hall. apply encoded_no_amp. }
  destruct fields as [|field fields]; first done.
  destruct fields as [|field' fields].
  - simpl. unfold indexOf. rewrite index_from_absent; first done.
    by apply Forall_inv in Hno.
  - rewrite split_join; [|done|done].
    replace (indexOf (join "&" (map encode_field (field :: field' :: fields))) "&")
      with (Z.of_nat (String.length (encode_field field))).
    + destruct field as [name text]. unfold encode_field. rewrite length_append.
      simpl. destruct (0 <? _) eqn:E; first done. apply Z.ltb_ge in E. lia.
    + unfold indexOf. simpl map. simpl join.
      rewrite index_from_first; first lia. by apply Forall_inv in Hno.
Qed.

Lemma for_each_fields this fields fields' b :
  Forall plain_field fields →
  Forall2 (shown decodeURIComponent this) fields fields' →
  for_each (add_textarea this) (map encode_field fields) b =
    for_each call (flat_map textarea_calls fields') b.
Proof.
  intros Hall Hshown. revert b.
  induction Hshown as [|[name text] [name' text'] fields fields' [Hn Ht] _ IH]; intros b;
    first done.
  apply Forall_cons in Hall as [(Hname & Hno & _) Hall]. simpl in Hn, Ht. subst name'.
  change (flat_map textarea_calls ((name, text') :: fields'))
    with (textarea_calls (name, text') ++ flat_map textarea_calls fields').
  rewrite for_each_app.
  cbn [map for_each]. unfold mbind, Dom_bind.
  rewrite (add_textarea_field this name text b Hname Hno).
  assert ((if decodeSimulateValues this then decodeURIComponent text else Some text)
          = Some text') as ->.
  { destruct (decodeSimulateValues this); [done|by subst]. }
  destruct (for_each call (textarea_calls (name, text')) b) as [[[]|e] b1]; [by apply IH|done].
Qed.

(** With [params] such a list of fields, [simulate] runs the script
    for these fields between putting the handler aside and putting it
    back. *)
Lemma simulate_script this own target attached fields fields' b :
  params this = Some (encode_fields fields) →
  Forall plain_field fields →
  Forall2 (shown decodeURIComponent this) fields fields' →
  simulate this own target attached b =
    match for_each call (script this target attached fields') (started own b) with
    | (Thrown e, b3) => (Thrown e, b3)
    | (Done _, b3) =>
        (Done tt,
         {| onbeforeunload :=
              if own && not_null (onbeforeunload b)
              then onbeforeunload b else onbeforeunload b3;
            calls := calls b3 |})
    end.
Proof.
  intros Hp Hall Hshown. rewrite simulate_parts, Hp. unfold script.
  rewrite for_each_app.
  destruct (for_each call (form_calls this target) (started own b)) as [[[]|e] b1]; last done.
  rewrite for_each_app.
  assert (for_each (add_textarea this) (pieces (encode_fields fields)) b1 =
          for_each call (flat_map textarea_calls fields') b1) as ->.
  { destruct fields as [|field fields].
    - by apply Forall2_nil_inv_l in Hshown as ->.
    - rewrite pieces_encoded by done. by apply for_each_fields. }
  by destruct (for_each call (flat_map textarea_calls fields') b1) as [[[]|e] b2].
Qed.

(** X16: the round trip of the parameters.  Let [params] be a list of
    fields written as [name=text] and joined with [&], where no name is
    empty or holds [=] or [&] and no text holds [&], and let every text
    decode if [decodeSimulateValues] is set.  The script of the run is:
    set up the form, add one text area for each field, in order, with
    the field's name and with its text (decoded if
    [decodeSimulateValues] is set), append the form to the body, submit
    it, and remove it if it is still attached.  If none of these calls
    throws, [simulate] returns normally, having made these calls and no
    others; in the document of the page [window.onbeforeunload] is then
    the handler found, or [null] if [null] or [undefined] was found,
    and in another document it is untouched.  If one of these calls
    throws, [simulate] throws the same exception, having made the calls
    before that one and no others, and in the document of the page
    [window.onbeforeunload] is left at [null]. *)
Theorem simulate_posts_fields this own target attached fields fields' b :
  params this = Some (encode_fields fields) →
  Forall plain_field fields →
  Forall2 (shown decodeURIComponent this) fields fields' →
  (none_throws dom_throws (calls b) (script this target attached fields') →
   simulate this own target attached b =
     (Done tt,
      {| onbeforeunload := handler_after own b;
         calls := calls b ++ script this target attached fields' |})) ∧
  (∀ made c rest e,
     script this target attached fields' = made ++ c :: rest →
     none_throws dom_throws (calls b) made →
     dom_throws (calls b ++ made) c = Some e →
     simulate this own target attached b =
       (Thrown e,
        {| onbeforeunload := handler_left own b; calls := calls b ++ made |})).
Proof.
  intros Hp Hall Hshown.
  rewrite (simulate_script this own target attached fields fields' b Hp Hall Hshown).
  split.
  - intros Hnone. rewrite for_each_call_none by done.
    unfold handler_after, after, started. cbn [onbeforeunload calls].
    by destruct own, (not_null (onbeforeunload b)).
  - intros made c rest e -> Hnone Hth.
    by rewrite (for_each_call_throws made c rest e (started own b) Hnone Hth).
Qed.

(** All that a run of [simulate] can be. *)
Lemma simulate_shape this own target attached b :
  ∃ fields made rest o b',
    simulate this own target attached b = (o, b') ∧
    calls b' = calls b ++ made ∧
    script this target attached fields = made ++ rest ∧
    onbeforeunload b' =
      match o with
      | Done _ => handler_after own b
      | Thrown _ => handler_left own b
      end ∧
    Forall (λ field, field.1 ≠ EmptyString ∧ ¬ occurs "=" field.1 ∧
                     ∃ p par text, params this = Some p ∧ In par (pieces p) ∧
                                   par = encode_field (field.1, text)) fields ∧
    (length fields ≤ match params this with
                     | Some p => length (pieces p)
                     | None => 0
                     end)%nat ∧
    ((o = Done tt ∧ params this ≠ None ∧ rest = []) ∨
     (o = Thrown TypeError ∧ params this = None ∧ fields = [] ∧
      rest = submit_calls attached) ∨
     (o = Thrown URIError ∧ params this ≠ None ∧ decodeSimulateValues this = true ∧
      rest = submit_calls attached) ∨
     (∃ e c rest', o = Thrown e ∧ rest = c :: rest' ∧
                   dom_throws (calls b ++ made) c = Some e)).
Proof.
  rewrite simulate_parts. unfold script.
  destruct (for_each_call_cases (form_calls this target) (started own b))
    as [[Hrun _]|(made & c & rest & e & Hcs & _ & Hth & Hrun)]; rewrite Hrun.
  2: { eexists [], made, (c :: rest ++ submit_calls attached), (Thrown e), _.
       split; first done. simpl flat_map. rewrite Hcs, <- app_assoc. simpl.
       split_and!; try done; [lia|].
       right; right; right. by eexists e, c, _. }
  destruct (params this) as [p|] eqn:Hp.
  2: { eexists [], (form_calls this target), (submit_calls attached), (Thrown TypeError), _.
       split; first done. simpl. split_and!; try done.
       right; left. done. }
  destruct (for_each_add_textarea this (pieces p) (after (started own b) (form_calls this target)))
    as (fields & made & rest & o & Hrun2 & Hc & Hf & Hl & Ho).
  rewrite Hrun2, after_after.
  assert (Forall (λ field, field.1 ≠ EmptyString ∧ ¬ occurs "=" field.1 ∧
                   ∃ p0 par text, Some p = Some p0 ∧ In par (pieces p0) ∧
                                  par = encode_field (field.1, text)) fields) as Hf'.
  { eapply Forall_impl; first exact Hf.
    intros field (H1 & H2 & par & text & Hin & Heq). split_and!; try done.
    by exists p, par, text. }
  destruct Ho as [[-> ->]|[(-> & Hdec & ->)|(e & c & rest' & -> & -> & Hth)]].
  - rewrite app_nil_r in Hc.
    destruct (for_each_call_cases (submit_calls attached)
                (after (started own b) (form_calls this target ++ made)))
      as [[Hrun3 _]|(made3 & c & rest & e & Hcs & _ & Hth & Hrun3)]; rewrite Hrun3.
    + eexists fields, (form_calls this target ++ made ++ submit_calls attached), [], _, _.
      split; first done. cbn [calls onbeforeunload after started].
      rewrite Hc, !app_nil_r, <- !app_assoc. split_and!; try done.
      * unfold handler_after. by destruct own, (not_null (onbeforeunload b)).
      * by left.
    + eexists fields, (form_calls this target ++ made ++ made3), (c :: rest), _, _.
      split; first done. cbn [calls onbeforeunload after started].
      rewrite Hc, Hcs, <- !app_assoc. split_and!; try done.
      right; right; right. exists e, c, rest. split_and!; try done.
      cbn [calls after started] in Hth. by rewrite <- !app_assoc in Hth.
  - rewrite app_nil_r in Hc.
    eexists fields, (form_calls this target ++ made), (submit_calls attached), _, _.
    split; first done. cbn [calls onbeforeunload after started].
    rewrite Hc, <- !app_assoc. split_and!; try done.
    right; right; left. done.
  - eexists fields, (form_calls this target ++ made), (c :: rest' ++ submit_calls attached), _, _.
    split; first done. cbn [calls onbeforeunload after started].
    rewrite Hc, <- !app_assoc. split_and!; try done.
    right; right; right. exists e, c, (rest' ++ submit_calls attached). split_and!; try done.
    cbn [calls after started] in Hth. by rewrite <- !app_assoc in Hth.
Qed.

(** X17: whatever [params] is and whichever call throws, a text area
    to which [simulate] gives a name gets a name that is not empty and
    holds no [=]; and if [params.indexOf('&') > 0], that is if the
    first [&] of [params] is not its first character, no such name
    holds an [&]. *)
Theorem simulate_textarea_names this own target attached b :
  ∃ o b' added,
    simulate this own target attached b = (o, b') ∧
    calls b' = calls b ++ added ∧
    ∀ name, In (TextareaSetAttribute "name" name) added →
      name ≠ EmptyString ∧ ¬ occurs "=" name ∧
      (∀ p, params this = Some p → 0 < indexOf p "&" → ¬ occurs "&" name).
Proof.
  destruct (simulate_shape this own target attached b)
    as (fields & made & rest & o & b' & Hrun & Hc & Hs & _ & Hf & _ & _).
  eexists o, b', made. split; first done. split; first exact Hc.
  intros name Hin.
  assert (In (TextareaSetAttribute "name" name) (script this target attached fields)) as Hin'.
  { rewrite Hs, in_app_iff. by left. }
  clear Hin. unfold script in Hin'.
  assert (∃ field, In field fields ∧ field.1 = name) as (field & Hfield & <-).
  { rewrite !in_app_iff in Hin'. destruct Hin' as [Hin|[Hin|Hin]].
    - unfold form_calls in Hin. rewrite !in_app_iff in Hin. simpl in Hin.
      destruct target; simpl in Hin; intuition congruence.
    - apply in_flat_map in Hin as (field & Hfield & Hin). exists field.
      split; first done. unfold textarea_calls in Hin. simpl in Hin.
      intuition congruence.
    - unfold submit_calls in Hin. destruct attached; simpl in Hin; intuition congruence. }
  rewrite Forall_forall in Hf.
  destruct (Hf field) as (H1 & H2 & p & par & text & Hp & Hpar & Heq).
  { by apply list_elem_of_In. }
  split_and!; try done.
  intros p' Hp' Hamp Hocc. assert (p' = p) as -> by congruence.
  unfold pieces in Hpar. apply Z.ltb_lt in Hamp. rewrite Hamp in Hpar.
  pose proof (split_pieces "&" p) as Hno. rewrite Forall_forall in Hno.
  apply (Hno par); first by apply list_elem_of_In.
  rewrite Heq. unfold encode_field. rewrite occurs_app. by left.
Qed.

(** X18: the check for [&] is [indexOf('&') > 0], so a [params] that
    begins with [&] is not split at all: the calls that [simulate]
    makes are then the beginning of the script for at most one field,
    and the name of that field begins with [&], holds no [=], and is
    the part of [params] before its first [=]. *)
Theorem simulate_leading_amp this own target attached tail b :
  params this = Some (String "&" tail) →
  ∃ fields made rest o b',
    simulate this own target attached b = (o, b') ∧
    calls b' = calls b ++ made ∧
    script this target attached fields = made ++ rest ∧
    (o = Done tt → rest = []) ∧
    (length fields ≤ 1)%nat ∧
    Forall (λ field, ∃ name' text, field.1 = String "&" name' ∧
                                   ¬ occurs "=" field.1 ∧
                                   String "&" tail = encode_field (field.1, text)) fields.
Proof.
  intros Hp.
  destruct (simulate_shape this own target attached b)
    as (fields & made & rest & o & b' & Hrun & Hc & Hs & _ & Hf & Hl & Ho).
  exists fields, made, rest, o, b'. split; first done. split; first done.
  split; first done.
  split.
  { intros ->.
    destruct Ho as [(_ & _ & ->)|[(? & _)|[(? & _)|(e & c & rest' & ? & _)]]]; done. }
  rewrite Hp in Hl.
  assert (pieces (String "&" tail) = [String "&" tail]) as Hpieces by reflexivity.
  rewrite Hpieces in Hl. split; first exact Hl.
  eapply Forall_impl; first exact Hf.
  intros [name text'] (H1 & H2 & p & par & text & Hp' & Hpar & Heq). simpl in *.
  assert (p = String "&" tail) as -> by congruence.
  rewrite Hpieces in Hpar. destruct Hpar as [<-|[]].
  destruct name as [|a name]; first done.
  unfold encode_field in Heq. simpl in Heq. injection Heq as <- Heq.
  exists name, text. split; first done. split; first done.
  unfold encode_field. simpl. by rewrite Heq.
Qed.

Lemma script_no_submit this target fields c :
  In c (form_calls this target ++ flat_map textarea_calls fields) →
  c ≠ BodyAppendChild ∧ c ≠ FormSubmit.
Proof.
  rewrite in_app_iff. intros [Hin|Hin].
  - unfold form_calls in Hin. rewrite !in_app_iff in Hin. simpl in Hin.
    destruct target; simpl in Hin; intuition congruence.
  - apply in_flat_map in Hin as (field & _ & Hin).
    unfold textarea_calls in Hin. simpl in Hin. intuition congruence.
Qed.

(** X19: how [simulate] ends.  The calls it has made are always a
    beginning of the script for some list of fields.  If it returns,
    [params] is not [null], the whole script has been run, and
    [window.onbeforeunload] is the handler found (or [null] for
    [undefined], in the document of the page).  If it throws, then
    either the next call of the script has thrown that exception, or
    [params] is [null], the exception is a [TypeError] and the form has
    just been set up, or [decodeSimulateValues] is set and the
    exception is the [URIError] of a failed decoding; in the last two
    cases the form has been neither appended to the document nor
    submitted.  Whenever it throws, [window.onbeforeunload] is left at
    [null] in the document of the page: the handler is not put back.
    So in a browser where the calls on the document, the form and the
    text areas do not throw, [simulate] throws a [TypeError] exactly
    when [params] is [null] and a [URIError] only with
    [decodeSimulateValues]. *)
Theorem simulate_outcome this own target attached b :
  ∃ o b' fields made rest,
    simulate this own target attached b = (o, b') ∧
    calls b' = calls b ++ made ∧
    script this target attached fields = made ++ rest ∧
    match o with
    | Done _ =>
        rest = [] ∧ params this ≠ None ∧ onbeforeunload b' = handler_after own b
    | Thrown e =>
        onbeforeunload b' = handler_left own b ∧
        ((∃ c rest', rest = c :: rest' ∧ dom_throws (calls b ++ made) c = Some e) ∨
         (e = TypeError ∧ params this = None ∧ made = form_calls this target ∧
          ¬ In BodyAppendChild made ∧ ¬ In FormSubmit made) ∨
         (e = URIError ∧ params this ≠ None ∧ decodeSimulateValues this = true ∧
          rest = submit_calls attached ∧
          ¬ In BodyAppendChild made ∧ ¬ In FormSubmit made))
    end ∧
    ((∀ l c, dom_throws l c = None) →
     (o = Thrown TypeError ↔ params this = None) ∧
     (o = Thrown URIError → decodeSimulateValues this = true)).
Proof.
  destruct (simulate_shape this own target attached b)
    as (fields & made & rest & o & b' & Hrun & Hc & Hs & Hh & _ & _ & Ho).
  exists o, b', fields, made, rest. split; first done. split; first done.
  split; first done.
  assert (rest = submit_calls attached → ¬ In BodyAppendChild made ∧ ¬ In FormSubmit made)
    as Hnot.
  { intros ->. unfold script in Hs. rewrite app_assoc in Hs. apply app_inv_tail in Hs.
    subst made. split; intros ?%script_no_submit; intuition congruence. }
  split.
  - destruct Ho as [(-> & ? & ->)|[(-> & ? & -> & ->)|[(-> & ? & ? & ->)|
                     (e & c & rest' & -> & -> & Hth)]]].
    + done.
    + split; first done. right; left. destruct (Hnot eq_refl).
      split_and!; try done.
      unfold script in Hs. rewrite app_assoc in Hs. apply app_inv_tail in Hs.
      cbn [flat_map] in Hs. by rewrite app_nil_r in Hs.
    + split; first done. right; right. destruct (Hnot eq_refl). done.
    + split; first done. left. by exists c, rest'.
  - intros Hnever.
    destruct Ho as [(-> & ? & _)|[(-> & ? & _)|[(-> & ? & ? & _)|
                     (e & c & rest' & _ & _ & Hth)]]].
    + split; [split; intros; congruence|intros; congruence].
    + split; [split; intros; congruence|intros; congruence].
    + split; [split; intros; congruence|done].
    + rewrite Hnever in Hth. done.
Qed.

End SimulateProofs.

(** * The further properties at work *)

Lemma lookups_repeat_witness :
  ∃ v h1,
    getNextLayerConnectedCells 1%positive 2 example_store = Some (v, h1) ∧
    (getNextLayerConnectedCells 1%positive 1 ;;;
     getNextLayerConnectedCells 1%positive 2) example_store = Some (v, h1) ∧
    getNextLayerConnectedCells 1%positive 2 h1 = Some (v, h1).
Proof.
  destruct (lookups_repeat 1%positive example_edge example_temp example_store)
    as [(h1 & H) _]; [reflexivity..|].
  destruct (H 1 2) as (v & H1 & H2 & H3).
  exists v, h1. split; [exact H1|split; [exact H3|exact H2]].
Defined.

Lemma getNextLayerConnectedCells_frame_witness :
  ∃ v h1 e1,
    getNextLayerConnectedCells 1%positive 1 example_store = Some (v, h1) ∧
    h1 !! 1%positive = Some (OEdge e1) ∧
    source e1 = VRef 3%positive ∧ previousLayerConnectedCells (cell e1) = None ∧
    h1 !! 2%positive = Some (OArray example_temp) ∧
    h1 !! 5%positive = Some (OArray example_edges).
Proof.
  destruct (getNextLayerConnectedCells_frame 1%positive example_edge example_temp 1
              example_store)
    as (v & h1 & e1 & outer & H1 & H2 & _ & _ & H3 & _ & _ & _ & _ & _ & _ & H4 & _ & _ & H5 & H6);
    [reflexivity..|].
  exists v, h1, e1. split; first exact H1. split; first exact H2.
  split; first exact H4. split; first exact H3. split; first exact H5.
  rewrite H6; [reflexivity|by eexists|done].
Defined.

Lemma getNextLayerConnectedCells_extent_witness :
  ∃ h1 outer o,
    (∃ v, getNextLayerConnectedCells 1%positive 1 example_store = Some (v, h1)) ∧
    h1 !! outer = Some (OArray o) ∧ len o = 2%nat ∧
    ∀ r, getNextLayerConnectedCells 1%positive 1 h1 = Some (VRef r, h1) →
         getNextLayerConnectedCells 1%positive 2 h1 ≠ Some (VRef r, h1).
Proof.
  destruct (getNextLayerConnectedCells_extent 1%positive example_edge example_temp
              example_store) as (h1 & outer & o & H1 & H2 & H3 & _ & _ & H4);
    [reflexivity..|].
  exists h1, outer, o. split; first exact (H1 1). split; first exact H2.
  split; first exact H3.
  intros r Hr1 Hr2.
  assert (1 = 2) as Habs by (apply (H4 1 2 r); [simpl; lia..|exact Hr1|exact Hr2]).
  discriminate Habs.
Defined.

Lemma getNextLayerConnectedCells_hands_out_cache_witness :
  ∃ h1 r h2,
    getNextLayerConnectedCells 1%positive 2 example_store = Some (VRef r, h1) ∧
    push_onto (VRef r) (VRef 4%positive) h1 = Some (tt, h2) ∧
    getNextLayerConnectedCells 1%positive 2 h2 = Some (VRef r, h2) ∧
    ∃ c, h2 !! r = Some (OArray (array_of_list [c; VRef 4%positive])).
Proof.
  destruct (getNextLayerConnectedCells_hands_out_cache 1%positive example_edge example_temp
              2 (VRef 4%positive) example_store)
    as (h1 & r & c & h2 & H1 & _ & H2 & H3 & H4 & _);
    [reflexivity | reflexivity | reflexivity | simpl; lia |].
  exists h1, r, h2. split; first exact H1. split; first exact H2.
  split; first exact H3. by exists c.
Defined.

Lemma cache_ignores_scratch_writes_witness :
  ∃ v0 h1 h2 v,
    getNextLayerConnectedCells 1%positive 1 example_store = Some (v0, h1) ∧
    setGeneralPurposeVariable 1%positive 3 (VNum 9) h1 = Some (tt, h2) ∧
    getNextLayerConnectedCells 1%positive 2 h1 = Some (v, h1) ∧
    getNextLayerConnectedCells 1%positive 2 h2 = Some (v, h2).
Proof.
  destruct (cache_ignores_scratch_writes 1%positive example_edge example_temp 1 3 (VNum 9)
              example_store) as (v0 & h1 & h2 & H1 & H2 & H3); [reflexivity..|].
  destruct (H3 2) as (v & H4 & H5 & _).
  exists v0, h1, h2, v. split; first exact H1. split; first exact H2.
  split; [exact H4|exact H5].
Defined.

Lemma scratch_write_before_or_after_first_lookup_witness :
  (∃ h', (getNextLayerConnectedCells 1%positive 1 ;;;
          setGeneralPurposeVariable 1%positive 3 (VNum 9) ;;;
          getNextLayerConnectedCells 1%positive 3) example_store = Some (VUndefined, h')) ∧
  (∃ r h', (setGeneralPurposeVariable 1%positive 3 (VNum 9) ;;;
            getNextLayerConnectedCells 1%positive 3) example_store = Some (VRef r, h') ∧
           h' !! r = Some (OArray (array_of_list [VRef 3%positive]))).
Proof.
  destruct (scratch_write_before_or_after_first_lookup 1%positive example_edge example_temp
              1 (VNum 9) example_store)
    as [(h' & H1 & _) (r & h'' & H2 & H3 & _)];
    [reflexivity | reflexivity | reflexivity | by vm_compute
    | unfold exact_key, exact; repeat split; by vm_compute |].
  split.
  - exists h'. exact H1.
  - exists r, h''. split; [exact H2|exact H3].
Defined.

Lemma setGeneralPurposeVariable_other_layer_witness :
  ∃ h', setGeneralPurposeVariable 1%positive 1 (VNum 9) example_store = Some (tt, h') ∧
        getGeneralPurposeVariable 1%positive 2 example_store = Some (VNum 1, example_store) ∧
        getGeneralPurposeVariable 1%positive 2 h' = Some (VNum 1, h').
Proof.
  destruct (setGeneralPurposeVariable_other_layer 1%positive example_edge example_temp
              1 2 (VNum 9) example_store) as (v' & h' & H1 & H2 & H3);
    [reflexivity | reflexivity
    | unfold exact_key, exact; repeat split; by vm_compute
    | unfold exact_key, exact; repeat split; by vm_compute
    | discriminate |].
  exists h'. split; first exact H2.
  assert (v' = VNum 1) as -> by (injection H1 as <-; reflexivity).
  split; [exact H1|exact H3].
Defined.



Lemma invert_independent_witness :
  (invert 1%positive ;;; setGeneralPurposeVariable 1%positive 1 (VNum 9)) example_store
    = (setGeneralPurposeVariable 1%positive 1 (VNum 9) ;;; invert 1%positive) example_store ∧
  ∃ h1, invert 1%positive example_store = Some (tt, h1) ∧
        getCoreCell 1%positive h1 = Some (VRef 7%positive, h1).
Proof.
  destruct (invert_independent 1%positive example_edge example_temp 1 (VNum 9)
              example_store) as (h1 & H1 & H2 & _ & _ & H3); [reflexivity..|].
  split; first exact H2.
  exists h1. split; first exact H1. apply H3. reflexivity.
Defined.

Lemma invert_before_first_lookup_witness :
  ∃ r h', (invert 1%positive ;;; getNextLayerConnectedCells 1%positive 2) example_store
            = Some (VRef r, h') ∧
          h' !! r = Some (OArray (array_of_list [VRef 4%positive])).
Proof.
  destruct (invert_before_first_lookup 1%positive example_edge example_temp example_store)
    as [(r & h' & H1 & H2) _]; [reflexivity | reflexivity | reflexivity | reflexivity
                                | simpl; lia |].
  exists r, h'. split; [exact H1|exact H2].
Defined.

Lemma lookups_independent_witness :
  ∃ v0 h1 r h2 v,
    getNextLayerConnectedCells 1%positive 2 example_store = Some (v0, h1) ∧
    getPreviousLayerConnectedCells 1%positive 1 h1 = Some (VRef r, h2) ∧
    h2 !! r = Some (OArray (array_of_list [VRef 4%positive])) ∧
    getNextLayerConnectedCells 1%positive 2 h1 = Some (v, h1) ∧
    getNextLayerConnectedCells 1%positive 2 h2 = Some (v, h2).
Proof.
  destruct (lookups_independent 1%positive example_edge example_temp 2 1 example_store)
    as (v0 & h1 & r & h2 & H1 & H2 & _ & H3 & H4);
    [reflexivity | reflexivity | reflexivity | reflexivity | simpl; lia |].
  destruct (H4 2) as (v & H5 & H6 & _).
  exists v0, h1, r, h2, v. split; first exact H1. split; first exact H2.
  split; first exact H3. split; [exact H5|exact H6].
Defined.

Lemma constructor_then_getCoreCell_witness :
  ∃ this h' s',
    constructor nat counting_identity example_cell 5%positive (example_store, 7%nat)
      = Some (this, (h', s')) ∧
    getCoreCell this h' = Some (VRef 7%positive, h').
Proof.
  destruct (constructor_then_getCoreCell nat counting_identity example_cell 5%positive
              example_edges example_store 7%nat eq_refl) as (this & h' & s' & H1 & H2).
  exists this, h', s'. split; [exact H1|exact H2].
Defined.

Lemma constructor_keeps_callers_array_witness :
  ∃ this h' s' h2,
    constructor nat counting_identity example_cell 5%positive (example_store, 7%nat)
      = Some (this, (h', s')) ∧
    update_array 5%positive (λ a, array_set a 0 (VRef 8%positive)) h' = Some (tt, h2) ∧
    getCoreCell this h2 = Some (VRef 8%positive, h2).
Proof.
  destruct (constructor_keeps_callers_array nat counting_identity example_cell 5%positive
              example_edges (λ a, array_set a 0 (VRef 8%positive)) example_store 7%nat eq_refl)
    as (this & idl & h' & s' & h2 & H1 & H2 & _ & H3 & _).
  exists this, h', s', h2. split; first exact H1. split; [exact H2|exact H3].
Defined.

Lemma simulate_posts_fields_witness :
  XmlRequest.simulate decode_stub never_throws example_request true None true example_browser =
    (XmlRequest.Done tt,
     {| XmlRequest.onbeforeunload := VRef 9%positive;
        XmlRequest.calls :=
          XmlRequest.script example_request None true
            [("xml", "%3Cg%2F%3E"); ("name", "a=b")] |}) ∧
  XmlRequest.simulate decode_stub no_body example_request true None true example_browser =
    (XmlRequest.Thrown XmlRequest.TypeError,
     {| XmlRequest.onbeforeunload := VNull;
        XmlRequest.calls :=
          XmlRequest.form_calls example_request None
          ++ XmlRequest.textarea_calls ("xml", "%3Cg%2F%3E")
          ++ XmlRequest.textarea_calls ("name", "a=b") |}).
Proof.
  assert (Forall XmlRequest.plain_field [("xml", "%3Cg%2F%3E"); ("name", "a=b")]) as Hplain.
  { repeat constructor; simpl; intuition discriminate. }
  assert (Forall2 (XmlRequest.shown decode_stub example_request)
            [("xml", "%3Cg%2F%3E"); ("name", "a=b")]
            [("xml", "%3Cg%2F%3E"); ("name", "a=b")]) as Hshown.
  { repeat constructor. }
  split.
  - apply (proj1 (simulate_posts_fields decode_stub never_throws example_request true None
                    true [("xml", "%3Cg%2F%3E"); ("name", "a=b")]
                    [("xml", "%3Cg%2F%3E"); ("name", "a=b")]
                    example_browser eq_refl Hplain Hshown)).
    intros made c rest _. reflexivity.
  - apply (proj2 (simulate_posts_fields decode_stub no_body example_request true None
                    true [("xml", "%3Cg%2F%3E"); ("name", "a=b")]
                    [("xml", "%3Cg%2F%3E"); ("name", "a=b")]
                    example_browser eq_refl Hplain Hshown)
             (XmlRequest.form_calls example_request None
              ++ XmlRequest.textarea_calls ("xml", "%3Cg%2F%3E")
              ++ XmlRequest.textarea_calls ("name", "a=b"))
             XmlRequest.BodyAppendChild
             [XmlRequest.FormSubmit; XmlRequest.ParentRemoveChild]
             XmlRequest.TypeError).
    + reflexivity.
    + intros made c rest H.
      pose proof (in_elt c made rest) as Hin. rewrite <- H in Hin. simpl in Hin.
      repeat (destruct Hin as [<-|Hin]; first reflexivity). destruct Hin.
    + reflexivity.
Defined.

Lemma simulate_leading_amp_witness :
  ∃ fields made rest o b',
    XmlRequest.simulate decode_stub never_throws amp_request false None false example_browser
      = (o, b') ∧
    XmlRequest.calls b' = made ∧
    XmlRequest.script amp_request None false fields = made ++ rest ∧
    (length fields ≤ 1)%nat ∧
    Forall (λ field, ∃ name' text,
              field.1 = String "&" name' ∧ ¬ XmlRequest.occurs "=" field.1 ∧
              "&a=1&b=2" = XmlRequest.encode_field (field.1, text)) fields.
Proof.
  destruct (simulate_leading_amp decode_stub never_throws amp_request false None false
              "a=1&b=2" example_browser eq_refl)
    as (fields & made & rest & o & b' & H1 & H2 & H3 & _ & H4 & H5).
  exists fields, made, rest, o, b'.
  split; first exact H1. split; first exact H2. split; first exact H3.
  split; [exact H4|exact H5].
Defined.
